(** * MarkdownFlow parsers: a shallow embedding of [markdown_flow/parsers.py]

    The development follows the source file top to bottom: Python strings
    and the fragment of [re] the module uses, then [MarkdownFlowEscapeProcessor],
    [MarkdownFlowBlockParser], [MarkdownFlowInlineParser],
    [MarkdownFlowVariableResolver] and [MarkdownFlowUnifiedParser].

    A Python [str] is a sequence of code points; the model carries the code
    points below 256 as [ascii] and a [str] as [list ascii].  An
    [Optional[...]] value of the source is an [option]; code that indexes
    a list or a dictionary ([parts[1]], [lines[0]], [safe_variables[k]])
    runs in the monad [res], whose [Raise] is the exception Python raises
    when the index or the key is not there. *)

From Stdlib Require Import List Ascii String Arith ZArith Lia Bool.
From stdpp Require Import base option gmap strings.
Import ListNotations.

Local Open Scope nat_scope.
Local Open Scope list_scope.

(** ** Python strings *)

Module Py.

Definition str := list ascii.

(** String literals of the source are written [py "..."]. *)
Definition py (s : string) : str := list_ascii_of_string s.

Definition chr_eqb (a b : ascii) : bool := Ascii.eqb a b.

(** The line feed, ['\n'] in the source. *)
Definition newline : ascii := ascii_of_nat 10.

Fixpoint str_eqb (a b : str) : bool :=
  match a, b with
  | [], [] => true
  | x :: a', y :: b' => chr_eqb x y && str_eqb a' b'
  | _, _ => false
  end.

(** [c.isspace()] for a code point below 256 (the same table drives [\s]
    of a [str] pattern). *)
Definition isspace (c : ascii) : bool :=
  let n := nat_of_ascii c in
  ((9 <=? n) && (n <=? 13)) || ((28 <=? n) && (n <=? 32))
  || (n =? 133) || (n =? 160).

Fixpoint lstrip (s : str) : str :=
  match s with
  | c :: s' => if isspace c then lstrip s' else s
  | [] => []
  end.

Definition rstrip (s : str) : str := rev (lstrip (rev s)).

(** [s.strip()] *)
Definition strip (s : str) : str := rstrip (lstrip s).

(** [s.startswith(p)] *)
Fixpoint startswith (s p : str) : bool :=
  match p, s with
  | [], _ => true
  | x :: p', y :: s' => chr_eqb x y && startswith s' p'
  | _ :: _, [] => false
  end.

(** [s.endswith(p)] *)
Definition endswith (s p : str) : bool := startswith (rev s) (rev p).

(** [p in s] *)
Fixpoint contains (s p : str) : bool :=
  startswith s p ||
  match s with
  | [] => false
  | _ :: s' => contains s' p
  end.

(** [s[i:j]] for [0 <= i], [0 <= j], on strings and on lists *)
Definition slice {A : Type} (s : list A) (i j : nat) : list A :=
  firstn (j - i) (skipn i s).

(** [s.split(sep)] and [s.split(sep, maxsplit)] for a non-empty [sep]:
    [skip] counts the characters of a separator still to pass over, [cur]
    is the piece being read (reversed), [budget] the splits left ([None]
    when [maxsplit] is not given). *)
Fixpoint split_from (sep : str) (budget : option nat) (skip : nat)
    (cur : str) (s : str) : list str :=
  match s with
  | [] => [rev cur]
  | c :: s' =>
      match skip with
      | S k => split_from sep budget k cur s'
      | O =>
          match budget with
          | Some O => split_from sep budget 0 (c :: cur) s'
          | _ =>
              if startswith s sep
              then rev cur ::
                   split_from sep (option_map pred budget)
                     (length sep - 1) [] s'
              else split_from sep budget 0 (c :: cur) s'
          end
      end
  end.

Definition split (s sep : str) : list str := split_from sep None 0 [] s.

Definition split_max (s sep : str) (maxsplit : nat) : list str :=
  split_from sep (Some maxsplit) 0 [] s.

(** [sep.join(l)] *)
Fixpoint join (sep : str) (l : list str) : str :=
  match l with
  | [] => []
  | [x] => x
  | x :: l' => x ++ sep ++ join sep l'
  end.

(** [a < b] on strings: code point order, a proper prefix first. *)
Fixpoint str_ltb (a b : str) : bool :=
  match a, b with
  | _, [] => false
  | [], _ :: _ => true
  | x :: a', y :: b' =>
      let m := nat_of_ascii x in
      let n := nat_of_ascii y in
      (m <? n) || ((m =? n) && str_ltb a' b')
  end.

(** A Python [set] of strings is kept as a duplicate-free list;
    [set_add] is [s.add(x)], [set_update] is [s.update(xs)]. *)
Definition set_add (x : str) (s : list str) : list str :=
  if existsb (str_eqb x) s then s else s ++ [x].

Definition set_update (xs : list str) (s : list str) : list str :=
  fold_left (fun acc x => set_add x acc) xs s.

(** [sorted(list(s))]: the ascending arrangement, by insertion. *)
Fixpoint insert_sorted (x : str) (l : list str) : list str :=
  match l with
  | [] => [x]
  | y :: l' => if str_ltb y x then y :: insert_sorted x l' else x :: l
  end.

Definition sorted (l : list str) : list str :=
  fold_right insert_sorted [] l.

End Py.

(** ** The fragment of Python's [re] used by the module

    Every pattern of the source is a sequence of literal characters,
    greedy repetitions of a one-character class, capture parentheses,
    the anchors [^] and [$], and one negative look-behind [(?<!%)].  A
    pattern is the list of these items in the order they are written;
    matching is the leftmost match with greedy repetition and
    backtracking, as in [re]. *)

Module Re.
Import Py.

(** One-character classes: [.] (anything but a newline, no [DOTALL] is
    ever set), [\s], and [[^c]]. *)
Inductive cls :=
| Dot
| Space
| Except (c : ascii).

Definition in_cls (k : cls) (a : ascii) : bool :=
  match k with
  | Dot => negb (chr_eqb a newline)
  | Space => isspace a
  | Except c => negb (chr_eqb a c)
  end.

Inductive item :=
| Chr (c : ascii)        (* a literal character *)
| Star (k : cls)         (* k*  *)
| Plus (k : cls)         (* k+  *)
| GOpen                  (* (   *)
| GClose                 (* )   *)
| Bol                    (* ^   *)
| Eol                    (* $   *)
| NotAfter (c : ascii).  (* (?<!c) *)

Definition pattern := list item.

(** Literal text as a pattern. *)
Definition lit (s : string) : pattern := map Chr (py s).

(** A match object: [m.start()], [m.end()] and the spans of the groups
    [1, 2, ...] (the groups of the source never nest, so they close in
    the order they open). *)
Record rmatch := RMatch {
  m_start : nat;
  m_end : nat;
  m_groups : list (nat * nat)
}.

(** [$] without [MULTILINE]: the end of the string, or just before a
    newline that ends the string. *)
Definition at_eol (s : str) : bool :=
  match s with
  | [] => true
  | [c] => chr_eqb c newline
  | _ => false
  end.

(** Matching a pattern at the current position.  [pos] is the offset of
    [s] in the whole subject, [prev] the character before it (for the
    look-behind), [opens] the offsets of the groups opened and not yet
    closed, [gs] the groups closed so far.  The result is the offset of
    the end of the match and the groups. *)
Definition matcher :=
  nat -> option ascii -> list nat -> list (nat * nat) -> str ->
  option (nat * list (nat * nat)).

(** Greedy [k*] followed by [cont]: the longest run first, then shorter
    ones. *)
Definition star_then (k : cls) (cont : matcher) : matcher :=
  fix star (pos : nat) (prev : option ascii) (opens : list nat)
      (gs : list (nat * nat)) (s : str) {struct s} :=
    match s with
    | a :: s' =>
        if in_cls k a then
          match star (S pos) (Some a) opens gs s' with
          | Some res => Some res
          | None => cont pos prev opens gs s
          end
        else cont pos prev opens gs s
    | [] => cont pos prev opens gs s
    end.

Fixpoint match_here (its : pattern) : matcher :=
  match its with
  | [] => fun pos _ _ gs _ => Some (pos, gs)
  | Chr c :: r => fun pos _ opens gs s =>
      match s with
      | a :: s' =>
          if chr_eqb a c then match_here r (S pos) (Some a) opens gs s'
          else None
      | [] => None
      end
  | Star k :: r => star_then k (match_here r)
  | Plus k :: r => fun pos _ opens gs s =>
      match s with
      | a :: s' =>
          if in_cls k a
          then star_then k (match_here r) (S pos) (Some a) opens gs s'
          else None
      | [] => None
      end
  | GOpen :: r => fun pos prev opens gs s =>
      match_here r pos prev (pos :: opens) gs s
  | GClose :: r => fun pos prev opens gs s =>
      match opens with
      | o :: opens' => match_here r pos prev opens' (gs ++ [(o, pos)]) s
      | [] => None
      end
  | Bol :: r => fun pos prev opens gs s =>
      if pos =? 0 then match_here r pos prev opens gs s else None
  | Eol :: r => fun pos prev opens gs s =>
      if at_eol s then match_here r pos prev opens gs s else None
  | NotAfter c :: r => fun pos prev opens gs s =>
      match prev with
      | Some a => if chr_eqb a c then None
                  else match_here r pos prev opens gs s
      | None => match_here r pos prev opens gs s
      end
  end.

Definition match_at (pat : pattern) (pos : nat) (prev : option ascii)
    (s : str) : option rmatch :=
  match match_here pat pos prev [] [] s with
  | Some (e, gs) => Some (RMatch pos e gs)
  | None => None
  end.

(** [re.match(pat, text)] *)
Definition rmatch_start (pat : pattern) (text : str) : option rmatch :=
  match_at pat 0 None text.

(** [re.finditer(pat, text)]: the non-overlapping matches from left to
    right.  [skip] counts the characters of the last match still to pass
    over.  No pattern of the source matches the empty string; after an
    empty match the scan simply moves on by one character. *)
Fixpoint scan (pat : pattern) (skip : nat) (pos : nat)
    (prev : option ascii) (s : str) : list rmatch :=
  match s with
  | [] =>
      match skip with
      | O => match match_at pat pos prev [] with
             | Some m => [m]
             | None => []
             end
      | S _ => []
      end
  | c :: s' =>
      match skip with
      | S k => scan pat k (S pos) (Some c) s'
      | O =>
          match match_at pat pos prev s with
          | Some m =>
              m :: scan pat (m_end m - pos - 1) (S pos) (Some c) s'
          | None => scan pat 0 (S pos) (Some c) s'
          end
      end
  end.

Definition finditer (pat : pattern) (text : str) : list rmatch :=
  scan pat 0 0 None text.

(** [re.search(pat, text)]: the first match of the scan. *)
Definition search (pat : pattern) (text : str) : option rmatch :=
  head (finditer pat text).

(** [m.group(0)] and [m.group(k)] for [k >= 1], on the subject [text]. *)
Definition group0 (text : str) (m : rmatch) : str :=
  slice text (m_start m) (m_end m).

Definition group (text : str) (m : rmatch) (k : nat) : str :=
  match nth_error (m_groups m) (k - 1) with
  | Some (a, b) => slice text a b
  | None => []
  end.

(** [re.findall(pat, text)] for a pattern with exactly one group. *)
Definition findall (pat : pattern) (text : str) : list str :=
  map (fun m => group text m 1) (finditer pat text).

(** Replacement templates: literal text and back-references [\k]. *)
Inductive titem :=
| TLit (s : string)
| TGroup (k : nat).

Definition template := list titem.

Definition expand (t : template) (text : str) (m : rmatch) : str :=
  flat_map (fun ti => match ti with
                      | TLit s => py s
                      | TGroup k => group text m k
                      end) t.

(** The subject rebuilt from left to right, each span [(a, b)] of [spans]
    replaced by its text. *)
Fixpoint rebuild (text : str) (pos : nat) (spans : list (nat * nat * str))
    : str :=
  match spans with
  | [] => skipn pos text
  | (a, b, r) :: rest => slice text pos a ++ r ++ rebuild text b rest
  end.

(** [re.sub(pat, repl, text)] *)
Definition sub (pat : pattern) (repl : template) (text : str) : str :=
  rebuild text 0
    (map (fun m => (m_start m, m_end m, expand repl text m))
         (finditer pat text)).

(** [re.split(pat, text)] for a pattern without groups. *)
Fixpoint pieces (text : str) (pos : nat) (ms : list rmatch) : list str :=
  match ms with
  | [] => [skipn pos text]
  | m :: rest => slice text pos (m_start m) :: pieces text (m_end m) rest
  end.

Definition split (pat : pattern) (text : str) : list str :=
  pieces text 0 (finditer pat text).

End Re.

(** ** Results and exceptions *)

Inductive exn :=
| IndexError
| KeyError.

Inductive res (A : Type) :=
| Ok (a : A)
| Raise (e : exn).

Arguments Ok {A} a.
Arguments Raise {A} e.

Definition bind {A B : Type} (m : res A) (f : A -> res B) : res B :=
  match m with
  | Ok a => f a
  | Raise e => Raise e
  end.

Notation "'let!' x ':=' m 'in' k" := (bind m (fun x => k))
  (at level 10, x name, m at level 100, k at level 200).

(** [for x in l: s = body(s, x)] *)
Fixpoint for_each {S A : Type} (l : list A) (s : S)
    (body : S -> A -> res S) : res S :=
  match l with
  | [] => Ok s
  | x :: l' => let! s' := body s x in for_each l' s' body
  end.

(** [l[i]] and [l[-1]] *)
Definition getitem {A : Type} (l : list A) (i : nat) : res A :=
  match nth_error l i with
  | Some x => Ok x
  | None => Raise IndexError
  end.

Definition getitem_last {A : Type} (l : list A) : res A :=
  match rev l with
  | x :: _ => Ok x
  | [] => Raise IndexError
  end.

(** [enumerate(l)] *)
Definition enumerate {A : Type} (l : list A) : list (nat * A) :=
  combine (seq 0 (length l)) l.

Import Py Re.

(** ** [EscapeType], [EscapeInfo] *)

Inductive EscapeType :=
| NONE
| FULL
| PARTIAL.

Definition EscapeType_eqb (a b : EscapeType) : bool :=
  match a, b with
  | NONE, NONE | FULL, FULL | PARTIAL, PARTIAL => true
  | _, _ => false
  end.

Record EscapeInfo := mkEscapeInfo {
  escape_type : EscapeType;
  original_text : str;
  processed_text : str;
  variable_positions : list (nat * nat)
}.

(** ** [MarkdownFlowEscapeProcessor] *)

Module MarkdownFlowEscapeProcessor.

(** [([^}]+)] *)
Definition name_group : pattern := [GOpen; Plus (Except "}"); GClose].

Definition DOCUMENT_ESCAPES : list (pattern * (template * EscapeType)) :=
  [ (lit "\---", ([TLit "---"], FULL));
    (lit "\===", ([TLit "==="], FULL));
    (lit "\?[", ([TLit "?["], FULL)) ].

Definition INLINE_ESCAPES : list (pattern * (template * EscapeType)) :=
  [ (lit "\...", ([TLit "..."], FULL));
    (lit "\|", ([TLit "|"], FULL));
    (lit "\//", ([TLit "//"], FULL));
    (lit "\{{" ++ name_group ++ lit "}}",
     ([TLit "{{"; TGroup 1; TLit "}}"], FULL)) ].

Definition PARTIAL_ESCAPES : list (pattern * template) :=
  [ (lit "\%{{" ++ name_group ++ lit "}}",
     [TLit "%{{"; TGroup 1; TLit "}}"]) ].

(** The state of [_process_escapes]: [processed_text], [escape_type],
    [variable_positions] ([has_escapes] is written and never read). *)
Definition pstate := (str * EscapeType * list (nat * nat))%type.

(** The body of [for match in reversed(matches)]; [subject] is the string
    the matches were found in. *)
Definition partial_step (pat : pattern) (replacement : template)
    (subject : str) (st : str * list (nat * nat)) (m : rmatch)
    : str * list (nat * nat) :=
  let '(processed_text, variable_positions) := st in
  let var_name :=
    match m_groups m with
    | [] => None
    | _ => Some (group subject m 1)
    end in
  let replacement_text := sub pat replacement (group0 subject m) in
  let variable_positions :=
    match var_name with
    | Some ((_ :: _) as name) =>
        let var_pattern := map Chr (py "{{" ++ name ++ py "}}") in
        match search var_pattern replacement_text with
        | Some var_match =>
            variable_positions ++
              [(m_start m + m_start var_match,
                m_start m + m_end var_match)]
        | None => variable_positions
        end
    | _ => variable_positions
    end in
  (firstn (m_start m) processed_text ++ replacement_text ++
     skipn (m_end m) processed_text,
   variable_positions).

Definition partial_pass (st : pstate) (entry : pattern * template)
    : pstate :=
  let '(processed_text, escape_type, variable_positions) := st in
  let '(pat, replacement) := entry in
  let matches := finditer pat processed_text in
  match matches with
  | [] => st
  | _ =>
      let '(processed_text', variable_positions') :=
        fold_left (partial_step pat replacement processed_text)
          (rev matches) (processed_text, variable_positions) in
      (processed_text', PARTIAL, variable_positions')
  end.

Definition full_pass (st : pstate)
    (entry : pattern * (template * EscapeType)) : pstate :=
  let '(processed_text, escape_type, variable_positions) := st in
  let '(pat, (replacement, esc_type)) := entry in
  match search pat processed_text with
  | Some _ =>
      (sub pat replacement processed_text,
       if EscapeType_eqb escape_type NONE then esc_type else escape_type,
       variable_positions)
  | None => st
  end.

Definition _process_escapes (text : str)
    (full_escapes : list (pattern * (template * EscapeType)))
    (partial_escapes : list (pattern * template)) : EscapeInfo :=
  let st := (text, NONE, []) in
  let st := fold_left partial_pass partial_escapes st in
  let '(processed_text, escape_type, variable_positions) :=
    fold_left full_pass full_escapes st in
  mkEscapeInfo escape_type text processed_text variable_positions.

Definition process_document_escapes (text : str) : EscapeInfo :=
  _process_escapes text DOCUMENT_ESCAPES [].

Definition process_inline_escapes (text : str) : EscapeInfo :=
  _process_escapes text INLINE_ESCAPES PARTIAL_ESCAPES.

End MarkdownFlowEscapeProcessor.


Import MarkdownFlowEscapeProcessor.

(** ** [BlockType] and [Block] *)

(** Modelled from the spec: [enums.BlockType], whose declaration is not
    part of the parser module; the three kinds of block of the data
    model. *)
Inductive BlockType :=
| CONTENT
| PRESERVED_CONTENT
| INTERACTION.

(** Modelled from the spec: [models.Block], whose declaration is not part
    of the parser module; a block carries its trimmed text, its kind and
    its position among the blocks of the document.  A [Block] object is
    truthy. *)
Record Block := mkBlock {
  content : str;
  block_type : BlockType;
  index : nat
}.

(** [block.index = i] *)
Definition set_index (b : Block) (i : nat) : Block :=
  mkBlock (content b) (block_type b) i.

(** ** [MarkdownFlowBlockParser] *)

Module MarkdownFlowBlockParser.

(** [r'\n\s*---\s*\n'] *)
Definition block_separator_pattern : pattern :=
  [Chr newline; Star Space] ++ lit "---" ++ [Star Space; Chr newline].

(** [r'^===(.+)===$'] *)
Definition inline_preserved_pattern : pattern :=
  [Bol] ++ lit "===" ++ [GOpen; Plus Dot; GClose] ++ lit "===" ++ [Eol].

(** The loop over the characters of [stripped]; the counter may go below
    zero. *)
Definition bracket_step (bracket_count : Z) (char : ascii) : Z :=
  if chr_eqb char "[" then (bracket_count + 1)%Z
  else if chr_eqb char "]" then (bracket_count - 1)%Z
  else bracket_count.

Definition _is_interaction_block (content : str) : bool :=
  let stripped := strip content in
  if negb (startswith stripped (py "?[") && endswith stripped (py "]"))
  then false
  else
    let bracket_count := fold_left bracket_step stripped 0%Z in
    (bracket_count =? 0)%Z.

Definition _is_preserved_content_block (content : str) : res bool :=
  let lines := Py.split content [newline] in
  let! inline :=
    if length lines =? 1 then
      let! line0 := getitem lines 0 in
      let line := strip line0 in
      match rmatch_start inline_preserved_pattern line with
      | Some m => Ok (negb (contains (group line m 1) (py "=")))
      | None => Ok false
      end
    else Ok false in
  if (inline : bool) then Ok true
  else if 3 <=? length lines then
    let! line0 := getitem lines 0 in
    let! line_last := getitem_last lines in
    let first_line := strip line0 in
    let last_line := strip line_last in
    if str_eqb first_line (py "===") && str_eqb last_line (py "===")
    then Ok true
    else Ok false
  else Ok false.

Definition _parse_single_block (content : str) (tentative_index : nat)
    : res (option Block) :=
  let content := strip content in
  match content with
  | [] => Ok None
  | _ =>
      if _is_interaction_block content
      then Ok (Some (mkBlock content INTERACTION tentative_index))
      else
        let! preserved := _is_preserved_content_block content in
        if (preserved : bool)
        then Ok (Some (mkBlock content PRESERVED_CONTENT tentative_index))
        else Ok (Some (mkBlock content CONTENT tentative_index))
  end.

(** The body of the first loop of [parse_document]. *)
Definition collect_block (blocks : list Block) (entry : nat * str)
    : res (list Block) :=
  let '(i, raw_block) := entry in
  let raw_block := strip raw_block in
  match raw_block with
  | [] => Ok blocks
  | _ =>
      let! block := _parse_single_block raw_block i in
      match block with
      | Some b => Ok (blocks ++ [b])
      | None => Ok blocks
      end
  end.

Definition parse_document (document : str) : res (list Block) :=
  let escape_info := process_document_escapes document in
  let processed_document := processed_text escape_info in
  let raw_blocks := Re.split block_separator_pattern processed_document in
  let! blocks := for_each (enumerate raw_blocks) [] collect_block in
  Ok (map (fun '(i, block) => set_index block i) (enumerate blocks)).

End MarkdownFlowBlockParser.

(** ** [MarkdownFlowInlineParser] *)

(** The dictionaries returned by the inline parser, one record per shape. *)
Record Button := mkButton {
  display : str;
  value : str
}.

Record ContentResult := mkContentResult {
  processed_content : str;
  variables : list str;
  content_escape_info : EscapeInfo
}.

Record PreservedResult := mkPreservedResult {
  preserved_processed_content : str;
  extracted_content : str;
  preserved_variables : list str;
  preserved_escape_info : EscapeInfo
}.

(** The result of [_parse_interaction_content]: the key ['type'] is the
    constructor, a dictionary with the only key ['error'] is
    [InteractionError]. *)
Inductive Interaction :=
| InteractionError (error : str)
| ButtonsWithText (variable : str) (buttons : list Button) (question : str)
| TextOnly (variable : str) (question : str)
| ButtonsOnly (variable : str) (buttons : list Button)
| NonAssignmentButton (buttons : list Button).

Record InteractionResult := mkInteractionResult {
  interaction : Interaction;
  interaction_escape_info : EscapeInfo;
  original_content : str
}.

(** [result['variable']] when the key is there. *)
Definition variable_of (r : Interaction) : option str :=
  match r with
  | ButtonsWithText v _ _ | TextOnly v _ | ButtonsOnly v _ => Some v
  | _ => None
  end.

(** [result['question']] when the key is there. *)
Definition question_of (r : Interaction) : option str :=
  match r with
  | ButtonsWithText _ _ q | TextOnly _ q => Some q
  | _ => None
  end.

Module MarkdownFlowInlineParser.

(** [r'%\{\{([^}]+)\}\}'] *)
Definition percent_pattern : pattern := lit "%{{" ++ name_group ++ lit "}}".

(** [r'(?<!%)\{\{([^}]+)\}\}'] *)
Definition brace_pattern : pattern :=
  [NotAfter "%"] ++ lit "{{" ++ name_group ++ lit "}}".

(** [r'^[^]]+\]\([^)]+\)$'] *)
Definition link_pattern : pattern :=
  [Bol; Plus (Except "]")] ++ lit "](" ++ [Plus (Except ")")] ++ lit ")"
  ++ [Eol].

(** The assignment pattern: [^], [%\{\{([^}]+)\}\}], a second group of
    any run of [.], then [$]. *)
Definition assignment_pattern : pattern :=
  [Bol] ++ lit "%{{" ++ name_group ++ lit "}}"
  ++ [GOpen; Star Dot; GClose; Eol].

Definition _extract_variables (text : str) (escape_info : option EscapeInfo)
    : list str :=
  let variables : list str := [] in
  let percent_vars := findall percent_pattern text in
  let variables := set_update (map strip percent_vars) variables in
  let variables :=
    fold_left
      (fun variables m =>
         match escape_info with
         | Some info =>
             if negb (EscapeType_eqb (escape_type info) FULL)
             then set_add (strip (group text m 1)) variables
             else variables
         | None => set_add (strip (group text m 1)) variables
         end)
      (finditer brace_pattern text) variables in
  sorted variables.

Definition parse_content_block (content : str) : ContentResult :=
  let escape_info := process_inline_escapes content in
  let variables :=
    _extract_variables (processed_text escape_info) (Some escape_info) in
  mkContentResult (processed_text escape_info) variables escape_info.

(** The body of the loop of [_parse_buttons]. *)
Definition button_step (buttons : list Button) (button_text : str)
    : res (list Button) :=
  let button_text := strip button_text in
  match button_text with
  | [] => Ok buttons
  | _ =>
      if contains button_text (py "//") then
        let parts := split_max button_text (py "//") 1 in
        let! p0 := getitem parts 0 in
        let! p1 := getitem parts 1 in
        Ok (buttons ++ [mkButton (strip p0) (strip p1)])
      else Ok (buttons ++ [mkButton button_text button_text])
  end.

Definition _parse_buttons (content : str) : res (list Button) :=
  match content with
  | [] => Ok []
  | _ => for_each (Py.split content (py "|")) [] button_step
  end.

Definition _parse_interaction_content (content : str) : res Interaction :=
  match rmatch_start link_pattern (strip content) with
  | Some _ =>
      Ok (InteractionError
            (py "Markdown link format not supported as interaction"))
  | None =>
      match rmatch_start assignment_pattern (strip content) with
      | Some var_match =>
          let var_name := strip (group (strip content) var_match 1) in
          let remaining := strip (group (strip content) var_match 2) in
          if contains remaining (py "...") then
            let parts := split_max remaining (py "...") 1 in
            let! p0 := getitem parts 0 in
            let buttons_part := strip p0 in
            let! question :=
              if 1 <? length parts
              then (let! p1 := getitem parts 1 in Ok (strip p1))
              else Ok [] in
            if contains buttons_part (py "|")
               && negb (str_eqb buttons_part [])
            then
              let! buttons := _parse_buttons buttons_part in
              Ok (ButtonsWithText var_name buttons question)
            else Ok (TextOnly var_name question)
          else
            if contains remaining (py "|") || negb (str_eqb remaining [])
            then
              let! buttons :=
                match remaining with
                | [] => Ok []
                | _ => _parse_buttons remaining
                end in
              Ok (ButtonsOnly var_name buttons)
            else Ok (TextOnly var_name [])
      | None =>
          let! buttons :=
            match content with
            | [] => Ok [mkButton [] []]
            | _ => _parse_buttons content
            end in
          Ok (NonAssignmentButton buttons)
      end
  end.

Definition parse_interaction_block (content : str) : res InteractionResult :=
  let inner_content :=
    if startswith content (py "?[") && endswith content (py "]")
    then strip (slice content 2 (length content - 1))
    else content in
  let escape_info := process_inline_escapes inner_content in
  let processed_content := processed_text escape_info in
  let! result := _parse_interaction_content processed_content in
  Ok (mkInteractionResult result escape_info content).

Definition _extract_preserved_content (content : str) : res str :=
  let lines := Py.split content [newline] in
  let! inline :=
    if length lines =? 1 then
      let! line0 := getitem lines 0 in
      match rmatch_start MarkdownFlowBlockParser.inline_preserved_pattern
              (strip line0) with
      | Some m => Ok (Some (strip (group (strip line0) m 1)))
      | None => Ok None
      end
    else Ok None in
  match inline with
  | Some body => Ok body
  | None =>
      if 3 <=? length lines then
        let! line0 := getitem lines 0 in
        if str_eqb (strip line0) (py "===") then
          let! line_last := getitem_last lines in
          if str_eqb (strip line_last) (py "===")
          then Ok (join [newline] (slice lines 1 (length lines - 1)))
          else Ok content
        else Ok content
      else Ok content
  end.

Definition parse_preserved_content_block (content : str)
    : res PreservedResult :=
  let! extracted_content := _extract_preserved_content content in
  let escape_info := process_inline_escapes extracted_content in
  let variables :=
    _extract_variables (processed_text escape_info) (Some escape_info) in
  Ok (mkPreservedResult (processed_text escape_info) extracted_content
        variables escape_info).

End MarkdownFlowInlineParser.

(** ** [MarkdownFlowVariableResolver] *)

(** A dictionary of variables: a value may be [None]. *)
Abbreviation vardict := (gmap str (option str)).

Module MarkdownFlowVariableResolver.

Definition UNKNOWN : str := py "UNKNOWN".

(** [value if value is not None and value != "" else "UNKNOWN"] *)
Definition safe_value (value : option str) : str :=
  match value with
  | Some ((_ :: _) as v) => v
  | _ => UNKNOWN
  end.

(** [d[k]] *)
Definition dict_get (d : gmap str str) (k : str) : res str :=
  match d !! k with
  | Some v => Ok v
  | None => Raise KeyError
  end.

(** The scan pattern of the resolver, [r'(?<!%)\{\{([^}]+)\}\}']. *)
Definition pattern_ : pattern :=
  [NotAfter "%"] ++ lit "{{" ++ name_group ++ lit "}}".

(** [any(start <= match.start() < end for start, end in positions)] *)
Definition in_positions (positions : list (nat * nat)) (m : rmatch) : bool :=
  existsb (fun '(start, end_) =>
             (start <=? m_start m) && (m_start m <? end_)) positions.

Definition should_replace (escape_info : option EscapeInfo) (m : rmatch)
    : bool :=
  match escape_info with
  | Some info =>
      match escape_type info with
      | FULL => false
      | PARTIAL => in_positions (variable_positions info) m
      | NONE => true
      end
  | None => true
  end.

(** The body of [for match in reversed(matches)]; the state is
    [safe_variables] and [result]. *)
Definition resolve_step (text : str) (escape_info : option EscapeInfo)
    (st : gmap str str * str) (m : rmatch) : res (gmap str str * str) :=
  let '(safe_variables, result) := st in
  let var_name := strip (group text m 1) in
  let safe_variables :=
    match safe_variables !! var_name with
    | None => <[var_name := UNKNOWN]> safe_variables
    | Some _ => safe_variables
    end in
  let! replacement := dict_get safe_variables var_name in
  if should_replace escape_info m
  then Ok (safe_variables,
           firstn (m_start m) result ++ replacement ++
             skipn (m_end m) result)
  else Ok (safe_variables, result).

Definition resolve_variables (text : str) (variables : option vardict)
    (escape_info : option EscapeInfo) : res str :=
  let variables : vardict :=
    match variables with
    | Some d => d
    | None => ∅
    end in
  let safe_variables : gmap str str :=
    map_fold (fun key value safe => <[key := safe_value value]> safe)
      ∅ variables in
  let result := text in
  let matches := finditer pattern_ result in
  let! st := for_each (rev matches) (safe_variables, result)
               (resolve_step text escape_info) in
  Ok (snd st).

End MarkdownFlowVariableResolver.

(** ** [MarkdownFlowUnifiedParser] *)

Module MarkdownFlowUnifiedParser.

Import MarkdownFlowInlineParser MarkdownFlowVariableResolver.

(** The body of the loop over the blocks; the state is [all_variables]. *)
Definition gather (all_variables : list str) (block : Block)
    : res (list str) :=
  match block_type block with
  | CONTENT =>
      let inline_result := parse_content_block (content block) in
      Ok (set_update (variables inline_result) all_variables)
  | INTERACTION =>
      let! inline_result := parse_interaction_block (content block) in
      let all_variables :=
        match variable_of (interaction inline_result) with
        | Some v => set_add v all_variables
        | None => all_variables
        end in
      match question_of (interaction inline_result) with
      | Some q =>
          let question_vars := _extract_variables q None in
          Ok (set_update question_vars all_variables)
      | None => Ok all_variables
      end
  | PRESERVED_CONTENT =>
      let! inline_result := parse_preserved_content_block (content block) in
      Ok (set_update (preserved_variables inline_result) all_variables)
  end.

Definition parse_document (document : str)
    : res (list Block * list str) :=
  let! blocks := MarkdownFlowBlockParser.parse_document document in
  let! all_variables := for_each blocks [] gather in
  Ok (blocks, sorted all_variables).

Definition process_block_content (block : Block)
    (variables : option vardict) : res str :=
  let variables : vardict :=
    match variables with
    | Some d => d
    | None => ∅
    end in
  match block_type block with
  | CONTENT =>
      let inline_result := parse_content_block (content block) in
      resolve_variables (processed_content inline_result)
        (Some variables) (Some (content_escape_info inline_result))
  | PRESERVED_CONTENT =>
      let! inline_result := parse_preserved_content_block (content block) in
      resolve_variables (preserved_processed_content inline_result)
        (Some variables) (Some (preserved_escape_info inline_result))
  | INTERACTION => Ok (content block)
  end.

End MarkdownFlowUnifiedParser.

(** * Notions of the specification *)

Import MarkdownFlowBlockParser MarkdownFlowInlineParser.
Import MarkdownFlowVariableResolver.

Definition backslash : ascii := "\".

(** A segment that is empty or white space only once trimmed. *)
Definition blank (s : str) : bool :=
  match strip s with
  | [] => true
  | _ => false
  end.

(** The number of occurrences of a character. *)
Definition count (c : ascii) (s : str) : nat :=
  length (List.filter (chr_eqb c) s).

(** As many [[] as []]: the running count of the specification ends at
    zero. *)
Definition brackets_balanced (s : str) : bool :=
  count "[" s =? count "]" s.

(** The text before and after the first occurrence of [sep] in [s]. *)
Fixpoint cut (sep s : str) : option (str * str) :=
  if startswith s sep then Some ([], skipn (length sep) s)
  else
    match s with
    | [] => None
    | c :: s' =>
        match cut sep s' with
        | Some (a, b) => Some (c :: a, b)
        | None => None
        end
    end.

(** The button a trimmed, non-empty segment stands for. *)
Definition button_of (segment : str) : Button :=
  match cut (py "//") segment with
  | Some (d, v) => mkButton (strip d) (strip v)
  | None => mkButton segment segment
  end.

(** [parse_buttons] as the specification words it: split on [|], drop the
    segments that are empty once trimmed, split each other one on its
    first [//]. *)
Definition parse_buttons_spec (content : str) : list Button :=
  flat_map (fun segment =>
              match strip segment with
              | [] => []
              | t => [button_of t]
              end)
           (Py.split content (py "|")).

Definition example_buttons : str := py "A//1|B|  |C//2//x".

(** The value the specification gives a name: the mapped value when it is
    neither null nor empty, the fallback otherwise. *)
Definition lookup_value (variables : vardict) (name : str) : str :=
  match variables !! name with
  | Some (Some []) => py "UNKNOWN"
  | Some (Some v) => v
  | Some None => py "UNKNOWN"
  | None => py "UNKNOWN"
  end.

(** The span of a match and the text that replaces it. *)
Definition substitution (text : str) (variables : vardict) (m : rmatch)
    : nat * nat * str :=
  (m_start m, m_end m, lookup_value variables (strip (group text m 1))).

(** One replacement: [result[:a] + r + result[b:]]. *)
Definition splice (result : str) (span : nat * nat * str) : str :=
  let '(a, b, r) := span in firstn a result ++ r ++ skipn b result.

(** Spans in increasing order, one after the other, between [lo] and
    [hi]. *)
Fixpoint chain (lo hi : nat) (spans : list (nat * nat)) : Prop :=
  match spans with
  | [] => True
  | (a, b) :: rest => lo <= a /\ a <= b /\ b <= hi /\ chain b hi rest
  end.

Definition span_of (m : rmatch) : nat * nat := (m_start m, m_end m).

(** A matcher that ends inside what is left of the subject. *)
Definition bounded (f : matcher) : Prop :=
  forall pos prev opens gs s e gs',
    f pos prev opens gs s = Some (e, gs') -> pos <= e <= pos + length s.

(** [safe_variables] holds the specified value of every name it knows,
    and a name it does not know has the fallback for its value. *)
Definition agrees (variables : vardict) (safe : gmap str str) : Prop :=
  forall k, match safe !! k with
            | Some v => v = lookup_value variables k
            | None => lookup_value variables k = UNKNOWN
            end.

(** The text of a variable reference, [{{name}}]. *)
Definition reference (name : str) : str := py "{{" ++ name ++ py "}}".

(** The inputs the properties below are evaluated at. *)
Definition nl : str := [newline].

Definition scenario : str :=
  py "Hello {{name}}" ++ nl ++ py "---" ++ nl ++ py "?[%{{choice}}Yes|No]".

Definition escaped_separator_document : str :=
  py "a" ++ nl ++ py "\---" ++ nl ++ py "b".

Definition two_partial_escapes : str := py "\%{{a}}\%{{b}}".

Definition x_is_v : vardict := {[ py "x" := Some (py "v") ]}.

(** ** Notions of the further properties *)

(** Each string strictly below the next one. *)
Fixpoint ascending (l : list str) : bool :=
  match l with
  | x :: (y :: _) as rest => str_ltb x y && ascending rest
  | _ => true
  end.

(** A set of names as the parsers build it: no name twice, every name
    trimmed. *)
Definition trimmed_set (s : list str) : Prop :=
  List.NoDup s /\ Forall (fun v => strip v = v) s.

(** The names of one block are all among [names]. *)
Definition covered (names : list str) (b : Block) : Prop :=
  match block_type b with
  | CONTENT => incl (variables (parse_content_block (content b))) names
  | PRESERVED_CONTENT =>
      forall r, parse_preserved_content_block (content b) = Ok r ->
                incl (preserved_variables r) names
  | INTERACTION =>
      forall r, parse_interaction_block (content b) = Ok r ->
                (forall v, variable_of (interaction r) = Some v ->
                           In v names) /\
                (forall q, question_of (interaction r) = Some q ->
                           incl (_extract_variables q None) names)
  end.

(** Parsing the text of a block again, at any index, gives the same
    block at that index. *)
Definition stable (b : Block) : Prop :=
  forall i, _parse_single_block (content b) i = Ok (Some (set_index b i)).

(** What the grammar makes of a binding [%{{var_name}}] followed by
    [remaining], both trimmed. *)
Definition binding_grammar (var_name remaining : str) : Interaction :=
  match cut (py "...") remaining with
  | Some (before, after) =>
      if contains (strip before) (py "|")
      then ButtonsWithText var_name (parse_buttons_spec (strip before))
             (strip after)
      else TextOnly var_name (strip after)
  | None =>
      match remaining with
      | [] => TextOnly var_name []
      | _ => ButtonsOnly var_name (parse_buttons_spec remaining)
      end
  end.

(** A multi-line preserved block around [body]. *)
Definition fenced (body : str) : str :=
  py "===" ++ [newline] ++ body ++ [newline] ++ py "===".

(** An inline preserved block around [body]. *)
Definition inline_fenced (body : str) : str := py "===" ++ body ++ py "===".

(** A button label that stands for itself: trimmed, not empty, without
    [|] and without [//]. *)
Definition simple_label (l : str) : bool :=
  str_eqb (strip l) l && negb (str_eqb l [])
  && negb (contains l (py "|")) && negb (contains l (py "//")).

(** The character before the end of [pre], or [prev] when [pre] is
    empty. *)
Definition last_char (pre : str) (prev : option ascii) : option ascii :=
  match rev pre with
  | c :: _ => Some c
  | [] => prev
  end.

(** * Properties *)

(** ** Strings *)

Section PyFacts.

Lemma chr_eqb_eq (a b : ascii) : chr_eqb a b = true <-> a = b.
Proof. apply Ascii.eqb_eq. Qed.

Lemma chr_eqb_neq (a b : ascii) : chr_eqb a b = false <-> a <> b.
Proof. apply Ascii.eqb_neq. Qed.

Lemma chr_eqb_refl (a : ascii) : chr_eqb a a = true.
Proof. apply Ascii.eqb_refl. Qed.

Lemma str_eqb_eq (a b : str) : str_eqb a b = true <-> a = b.
Proof.
  revert b; induction a as [|x a IH]; intros [|y b]; simpl;
    try (split; [discriminate | congruence]); try tauto.
  rewrite andb_true_iff, chr_eqb_eq, IH. split.
  - intros [-> ->]; reflexivity.
  - intros E; injection E; auto.
Qed.

Lemma lstrip_idem (s : str) : lstrip (lstrip s) = lstrip s.
Proof.
  induction s as [|c s IH]; simpl; [reflexivity|].
  destruct (isspace c) eqn:E; [exact IH|]. simpl. rewrite E. reflexivity.
Qed.

Lemma lstrip_snoc (s : str) (c : ascii) :
  isspace c = false -> lstrip (s ++ [c]) = lstrip s ++ [c].
Proof.
  intros Hc. induction s as [|x s IH]; simpl.
  - rewrite Hc. reflexivity.
  - destruct (isspace x); [exact IH | reflexivity].
Qed.

Lemma rstrip_cons (c : ascii) (s : str) :
  isspace c = false -> rstrip (c :: s) = c :: rstrip s.
Proof.
  intros Hc. unfold rstrip. simpl.
  rewrite lstrip_snoc by exact Hc.
  rewrite rev_app_distr. reflexivity.
Qed.

Lemma rstrip_idem (s : str) : rstrip (rstrip s) = rstrip s.
Proof.
  unfold rstrip. rewrite rev_involutive, lstrip_idem. reflexivity.
Qed.

(** A trimmed string is empty or starts with a character that is not
    white space. *)
Lemma strip_head (s : str) :
  strip s = [] \/
  exists c t, isspace c = false /\ lstrip s = c :: t /\
              strip s = c :: rstrip t.
Proof.
  unfold strip.
  assert (H : lstrip s = [] \/
              exists c t, isspace c = false /\ lstrip s = c :: t).
  { induction s as [|c s IH]; simpl; [left; reflexivity|].
    destruct (isspace c) eqn:E; [exact IH|].
    right. exists c, s. auto. }
  destruct H as [-> | (c & t & Hc & ->)].
  - left. reflexivity.
  - right. exists c, t. rewrite rstrip_cons by exact Hc. auto.
Qed.

Lemma strip_idem (s : str) : strip (strip s) = strip s.
Proof.
  destruct (strip_head s) as [E | (c & t & Hc & _ & E)].
  - rewrite E. reflexivity.
  - rewrite E. unfold strip at 1. simpl. rewrite Hc.
    rewrite rstrip_cons by exact Hc. rewrite rstrip_idem. reflexivity.
Qed.

Lemma strip_cons (c : ascii) (s : str) :
  isspace c = false -> strip (c :: s) = c :: rstrip s.
Proof.
  intros Hc. unfold strip. simpl. rewrite Hc.
  apply rstrip_cons, Hc.
Qed.

(** [split] never returns the empty list. *)
Lemma split_from_cons (sep : str) (budget : option nat) (skip : nat)
    (cur s : str) :
  exists x l, split_from sep budget skip cur s = x :: l.
Proof.
  revert budget skip cur.
  induction s as [|c s IH]; intros budget skip cur; cbn [split_from];
    [eauto|].
  destruct skip as [|k]; [|apply IH].
  destruct budget as [[|n]|]; [apply IH| |];
    (destruct (startswith (c :: s) sep); [eauto | apply IH]).
Qed.

Lemma getitem_last_cons {A : Type} (x : A) (l : list A) :
  exists y, getitem_last (x :: l) = Ok y.
Proof.
  unfold getitem_last.
  destruct (rev (x :: l)) as [|y r] eqn:E; [|eauto].
  apply (f_equal (@length A)) in E. rewrite length_rev in E.
  discriminate.
Qed.

End PyFacts.

Section SplitFacts.

Lemma contains_cut (sep s : str) :
  contains s sep = match cut sep s with Some _ => true | None => false end.
Proof.
  induction s as [|c s IH]; cbn [contains cut].
  - destruct (startswith [] sep); reflexivity.
  - destruct (startswith (c :: s) sep); [reflexivity|].
    rewrite IH. cbn [orb]. destruct (cut sep s) as [[a b]|]; reflexivity.
Qed.

Lemma split_from_exhausted (sep : str) (k : nat) (cur s : str) :
  split_from sep (Some 0) k cur s = [rev cur ++ skipn k s].
Proof.
  revert k cur. induction s as [|c s IH]; intros k cur; cbn [split_from].
  - rewrite skipn_nil, app_nil_r. reflexivity.
  - destruct k as [|k].
    + rewrite IH. cbn [rev skipn]. rewrite <- app_assoc. reflexivity.
    + rewrite IH. reflexivity.
Qed.

Lemma split_from_once (sep : str) (cur s : str) :
  sep <> [] ->
  split_from sep (Some 1) 0 cur s =
  match cut sep s with
  | Some (a, b) => [rev cur ++ a; b]
  | None => [rev cur ++ s]
  end.
Proof.
  intros Hsep. revert cur.
  induction s as [|c s IH]; intros cur; cbn [split_from cut].
  - destruct sep as [|x sep]; [congruence|]. cbn [startswith].
    rewrite app_nil_r. reflexivity.
  - destruct (startswith (c :: s) sep) eqn:E.
    + cbn [option_map Nat.pred]. rewrite split_from_exhausted.
      rewrite app_nil_r. destruct sep as [|x sep]; [congruence|].
      cbn [length skipn rev app].
      replace (S (length sep) - 1) with (length sep) by lia. reflexivity.
    + rewrite IH. destruct (cut sep s) as [[a b]|];
        cbn [rev]; rewrite <- app_assoc; reflexivity.
Qed.

End SplitFacts.

Section ButtonFacts.

Lemma for_each_append {A B : Type} (f : A -> list B)
    (body : list B -> A -> res (list B)) (l : list A) (acc : list B) :
  (forall acc x, body acc x = Ok (acc ++ f x)) ->
  for_each l acc body = Ok (acc ++ flat_map f l).
Proof.
  intros Hbody. revert acc.
  induction l as [|x l IH]; intros acc; cbn [for_each flat_map].
  - rewrite app_nil_r. reflexivity.
  - rewrite Hbody. cbn [bind]. rewrite IH, <- app_assoc. reflexivity.
Qed.

Lemma button_step_spec (buttons : list Button) (button_text : str) :
  button_step buttons button_text =
  Ok (buttons ++ match strip button_text with
                 | [] => []
                 | t => [button_of t]
                 end).
Proof.
  unfold button_step.
  destruct (strip button_text) as [|c t] eqn:E.
  - rewrite app_nil_r. reflexivity.
  - unfold button_of, split_max.
    rewrite contains_cut, split_from_once by discriminate.
    destruct (cut (py "//") (c :: t)) as [[a b]|]; reflexivity.
Qed.

Lemma _parse_buttons_spec (content : str) :
  _parse_buttons content = Ok (parse_buttons_spec content).
Proof.
  unfold _parse_buttons, parse_buttons_spec.
  destruct content as [|c s]; [reflexivity|].
  rewrite (for_each_append _ _ _ _ button_step_spec). reflexivity.
Qed.

End ButtonFacts.

Section InteractionFacts.

Lemma getitem_in_range {A : Type} (l : list A) (i : nat) :
  i < length l -> exists x, getitem l i = Ok x.
Proof.
  intros H. unfold getitem.
  destruct (nth_error l i) as [x|] eqn:E; [eauto|].
  apply nth_error_None in E. lia.
Qed.

Lemma _parse_interaction_content_total (content : str) :
  exists r, _parse_interaction_content content = Ok r.
Proof.
  unfold _parse_interaction_content.
  destruct (rmatch_start link_pattern (strip content)); [eauto|].
  destruct (rmatch_start assignment_pattern (strip content)) as [m|].
  - set (remaining := strip (group (strip content) m 2)).
    destruct (contains remaining (py "...")).
    + unfold split_max.
      destruct (split_from_cons (py "...") (Some 1) 0 [] remaining)
        as (x & l & E).
      rewrite E. cbn [getitem nth_error bind].
      assert (Hq : exists q,
                 (if 1 <? length (x :: l)
                  then let! p1 := getitem (x :: l) 1 in Ok (strip p1)
                  else Ok []) = Ok q).
      { destruct (1 <? length (x :: l)) eqn:Hl; [|eauto].
        apply Nat.ltb_lt in Hl.
        destruct (getitem_in_range (x :: l) 1 Hl) as (p1 & ->).
        cbn [bind]. eauto. }
      destruct Hq as (q & ->). cbn [bind].
      destruct (contains (strip x) (py "|") && negb (str_eqb (strip x) []));
        [|eauto].
      rewrite _parse_buttons_spec. cbn [bind]. eauto.
    + destruct (contains remaining (py "|") || negb (str_eqb remaining []));
        [|eauto].
      destruct remaining; [cbn [bind]; eauto|].
      rewrite _parse_buttons_spec. cbn [bind]. eauto.
  - destruct content; [cbn [bind]; eauto|].
    rewrite _parse_buttons_spec. cbn [bind]. eauto.
Qed.

End InteractionFacts.

(** ** Regular expressions *)

Section ReFacts.

(** A pattern that starts with a literal character finds nothing in a
    text that does not contain this character. *)
Lemma scan_first_absent (c : ascii) (r : pattern) (s : str) :
  ~ In c s ->
  forall skip pos prev, scan (Chr c :: r) skip pos prev s = [].
Proof.
  induction s as [|a s IH]; intros Hin skip pos prev.
  - destruct skip; reflexivity.
  - assert (Ha : chr_eqb a c = false).
    { apply chr_eqb_neq. intros ->. apply Hin. left. reflexivity. }
    assert (Hs : ~ In c s) by (intros H; apply Hin; right; exact H).
    cbn [scan]. destruct skip as [|k]; [|apply IH, Hs].
    unfold match_at. cbn [match_here]. rewrite Ha. apply IH, Hs.
Qed.

Lemma finditer_first_absent (c : ascii) (r : pattern) (s : str) :
  ~ In c s -> finditer (Chr c :: r) s = [].
Proof. intros H. apply scan_first_absent, H. Qed.

End ReFacts.

(** ** The escape processor *)

Lemma partial_pass_no_backslash (text : str) e ps :
  ~ In backslash text ->
  fold_left partial_pass PARTIAL_ESCAPES (text, e, ps) = (text, e, ps).
Proof.
  intros H. unfold PARTIAL_ESCAPES. cbn [fold_left]. unfold partial_pass.
  change (lit "\%{{" ++ name_group ++ lit "}}") with
    (Chr backslash :: (lit "%{{" ++ name_group ++ lit "}}")).
  rewrite finditer_first_absent by exact H. reflexivity.
Qed.

Lemma full_pass_no_backslash (text : str) e ps r t :
  ~ In backslash text ->
  full_pass (text, e, ps) (Chr backslash :: r, t) = (text, e, ps).
Proof.
  intros H. unfold full_pass. destruct t as [replacement esc_type].
  unfold search. rewrite finditer_first_absent by exact H. reflexivity.
Qed.

(** ** The block parser *)

Section BlockFacts.

Lemma _is_preserved_content_block_total (content : str) :
  exists b, _is_preserved_content_block content = Ok b.
Proof.
  unfold _is_preserved_content_block, Py.split.
  destruct (split_from_cons [newline] None 0 [] content) as (x & l & ->).
  destruct (getitem_last_cons x l) as (y & Hy).
  assert (Hinline : exists b,
            (if length (x :: l) =? 1
             then let! line0 := getitem (x :: l) 0 in
                  match rmatch_start inline_preserved_pattern (strip line0)
                  with
                  | Some m =>
                      Ok (negb (contains (group (strip line0) m 1)
                                  (py "=")))
                  | None => Ok false
                  end
             else Ok false) = Ok b).
  { destruct (length (x :: l) =? 1); [|eauto].
    cbn [getitem nth_error bind].
    destruct (rmatch_start inline_preserved_pattern (strip x)); eauto. }
  destruct Hinline as (b & ->). cbn [bind].
  destruct b; [eauto|].
  destruct (3 <=? length (x :: l)); [|eauto].
  cbn [getitem nth_error bind]. rewrite Hy. cbn [bind].
  destruct (str_eqb (strip x) (py "===") && str_eqb (strip y) (py "==="));
    eauto.
Qed.

Lemma _parse_single_block_trimmed (content : str) (i : nat) :
  strip content <> [] ->
  exists t, _parse_single_block content i =
            Ok (Some (mkBlock (strip content) t i)).
Proof.
  intros Hne. unfold _parse_single_block.
  destruct (strip content) as [|c s] eqn:E; [congruence|].
  destruct (_is_interaction_block (c :: s)); [eauto|].
  destruct (_is_preserved_content_block_total (c :: s)) as (b & ->).
  cbn [bind]. destruct b; eauto.
Qed.

Lemma collect_block_spec (blocks : list Block) (i : nat) (raw : str) :
  exists bs,
    collect_block blocks (i, raw) = Ok (blocks ++ bs) /\
    map content bs = (if blank raw then [] else [strip raw]).
Proof.
  unfold collect_block, blank.
  destruct (strip raw) as [|c s] eqn:E.
  - exists []. rewrite app_nil_r. auto.
  - assert (Hne : strip (c :: s) <> []).
    { rewrite <- E, strip_idem, E. discriminate. }
    destruct (_parse_single_block_trimmed (c :: s) i Hne) as (t & ->).
    cbn [bind]. eexists. split; [reflexivity|].
    cbn [map content]. rewrite <- E, strip_idem. reflexivity.
Qed.

Lemma collect_blocks_spec (entries : list (nat * str)) (acc : list Block) :
  exists bs,
    for_each entries acc collect_block = Ok (acc ++ bs) /\
    map content bs =
      map strip (List.filter (fun s => negb (blank s)) (map snd entries)).
Proof.
  revert acc. induction entries as [|[i raw] entries IH]; intros acc.
  - exists []. rewrite app_nil_r. auto.
  - cbn [for_each].
    destruct (collect_block_spec acc i raw) as (b1 & -> & H1).
    cbn [bind]. destruct (IH (acc ++ b1)) as (b2 & -> & H2).
    exists (b1 ++ b2). rewrite <- app_assoc. split; [reflexivity|].
    rewrite map_app, H1, H2. cbn [map snd List.filter].
    destruct (blank raw); reflexivity.
Qed.

Lemma map_snd_enumerate {A : Type} (l : list A) :
  map snd (enumerate l) = l.
Proof.
  unfold enumerate. generalize 0.
  induction l as [|x l IH]; intros n; cbn; [reflexivity|].
  rewrite IH. reflexivity.
Qed.

Lemma reindex_spec (blocks : list Block) :
  let out := map (fun '(i, block) => set_index block i) (enumerate blocks) in
  map index out = seq 0 (length out) /\ map content out = map content blocks.
Proof.
  cbn zeta. unfold enumerate. rewrite length_map, length_combine, length_seq, Nat.min_id.
  generalize 0.
  induction blocks as [|b blocks IH]; intros n; cbn; [auto|].
  destruct (IH (S n)) as [-> ->]. auto.
Qed.

End BlockFacts.


Section ClassificationFacts.

Lemma bracket_fold (s : str) (z : Z) :
  fold_left bracket_step s z =
  (z + Z.of_nat (count "[" s) - Z.of_nat (count "]" s))%Z.
Proof.
  revert z. induction s as [|c s IH]; intros z.
  - cbn. lia.
  - cbn [fold_left]. rewrite IH. unfold bracket_step, count.
    cbn [List.filter].
    destruct (chr_eqb c "[") eqn:E1.
    + apply chr_eqb_eq in E1. subst c. cbn. lia.
    + destruct (chr_eqb c "]") eqn:E2.
      * apply chr_eqb_eq in E2. subst c. cbn. lia.
      * rewrite !(Ascii.eqb_sym _ c). fold (chr_eqb c "[").
        fold (chr_eqb c "]"). rewrite E1, E2. lia.
Qed.

Lemma bracket_count_balanced (s : str) :
  (fold_left bracket_step s 0 =? 0)%Z = brackets_balanced s.
Proof.
  rewrite bracket_fold. unfold brackets_balanced.
  destruct (count "[" s =? count "]" s) eqn:E.
  - apply Nat.eqb_eq in E. apply Z.eqb_eq. lia.
  - apply Nat.eqb_neq in E. apply Z.eqb_neq. lia.
Qed.

Lemma split_first_piece (sep cur s : str) :
  exists p rest, split_from sep None 0 cur s = (rev cur ++ p) :: rest.
Proof.
  revert cur. induction s as [|c s IH]; intros cur; cbn [split_from].
  - exists [], []. rewrite app_nil_r. reflexivity.
  - destruct (startswith (c :: s) sep).
    + exists []. rewrite app_nil_r. eauto.
    + destruct (IH (c :: cur)) as (p & rest & ->).
      exists (c :: p), rest. cbn [rev]. rewrite <- app_assoc. reflexivity.
Qed.

(** A block whose first character is [?] is not preserved content. *)
Lemma question_mark_not_preserved (s : str) :
  _is_preserved_content_block ("?"%char :: s) = Ok false.
Proof.
  unfold _is_preserved_content_block, Py.split.
  cbn [split_from]. change (startswith ("?"%char :: s) [newline]) with false.
  cbv iota.
  destruct (split_first_piece [newline] ["?"%char] s) as (p & rest & ->).
  cbn [rev app].
  cbn [getitem nth_error bind].
  assert (Hm : rmatch_start inline_preserved_pattern
                 (strip ("?"%char :: p)) = None).
  { rewrite strip_cons by reflexivity. reflexivity. }
  assert (Hq : str_eqb (strip ("?"%char :: p)) (py "===") = false).
  { rewrite strip_cons by reflexivity. reflexivity. }
  rewrite Hm.
  match goal with
  | |- context [if ?b then Ok false else Ok false] =>
      replace (if b then Ok false else Ok false) with (@Ok bool false)
        by (destruct b; reflexivity)
  end.
  cbn [bind].
  match goal with
  | |- context [if ?b then _ else Ok false] => destruct b; [|reflexivity]
  end.
  unfold str in *.
  destruct (getitem_last_cons ("?"%char :: p) rest) as (y & ->).
  cbn [bind]. rewrite Hq. reflexivity.
Qed.

End ClassificationFacts.


Section BracketFacts.

Lemma startswith_app (p s : str) : startswith (p ++ s) p = true.
Proof.
  induction p as [|c p IH]; [destruct s; reflexivity|].
  cbn [app startswith]. rewrite chr_eqb_refl, IH. reflexivity.
Qed.

Lemma endswith_app (p s : str) : endswith (s ++ p) p = true.
Proof. unfold endswith. rewrite rev_app_distr. apply startswith_app. Qed.

Lemma slice_interior (content : str) :
  let whole := py "?[" ++ content ++ py "]" in
  slice whole 2 (length whole - 1) = content.
Proof.
  cbn zeta. unfold slice. cbn [py list_ascii_of_string app skipn length].
  rewrite length_app. cbn [length].
  replace (S (S (length content + 1)) - 1 - 2) with (length content) by lia.
  rewrite skipn_O, firstn_app, firstn_all, Nat.sub_diag. cbn [firstn].
  apply app_nil_r.
Qed.

End BracketFacts.

(** ** The matcher and the scan *)

Section EngineFacts.

Lemma star_then_bounded (k : cls) (cont : matcher) :
  bounded cont -> bounded (star_then k cont).
Proof.
  intros Hc pos prev opens gs s. revert pos prev opens gs.
  induction s as [|a s IH]; intros pos prev opens gs e gs' H;
    cbn [star_then] in H.
  - apply Hc in H. exact H.
  - destruct (in_cls k a).
    + destruct (star_then k cont (S pos) (Some a) opens gs s)
        as [[e1 g1]|] eqn:E.
      * injection H as <- <-. apply IH in E. cbn [length]. lia.
      * apply Hc in H. exact H.
    + apply Hc in H. exact H.
Qed.

Lemma match_here_bounded (its : pattern) : bounded (match_here its).
Proof.
  induction its as [|it r IH]; [|destruct it]; cbn [match_here].
  - intros pos prev opens gs s e gs' H. injection H as <- <-. lia.
  - intros pos prev opens gs [|a s] e gs' H; [discriminate|].
    destruct (chr_eqb a c); [|discriminate].
    apply IH in H. cbn [length]. lia.
  - apply star_then_bounded, IH.
  - intros pos prev opens gs [|a s] e gs' H; [discriminate|].
    destruct (in_cls k a); [|discriminate].
    apply (star_then_bounded k _ IH) in H. cbn [length]. lia.
  - intros pos prev opens gs s e gs' H. apply IH in H. exact H.
  - intros pos prev [|o opens] gs s e gs' H; [discriminate|].
    apply IH in H. exact H.
  - intros pos prev opens gs s e gs' H.
    destruct (pos =? 0); [|discriminate]. apply IH in H. exact H.
  - intros pos prev opens gs s e gs' H.
    destruct (at_eol s); [|discriminate]. apply IH in H. exact H.
  - intros pos prev opens gs s e gs' H.
    destruct prev as [a|]; [destruct (chr_eqb a c); [discriminate|]|];
      apply IH in H; exact H.
Qed.

Lemma match_at_bounded (pat : pattern) (pos : nat) (prev : option ascii)
    (s : str) (m : rmatch) :
  match_at pat pos prev s = Some m ->
  m_start m = pos /\ pos <= m_end m <= pos + length s.
Proof.
  unfold match_at.
  destruct (match_here pat pos prev [] [] s) as [[e gs]|] eqn:E;
    [|discriminate].
  intros H. injection H as <-. cbn [m_start m_end].
  apply match_here_bounded in E. auto.
Qed.

Lemma chain_weaken (lo lo' hi : nat) (spans : list (nat * nat)) :
  lo' <= lo -> chain lo hi spans -> chain lo' hi spans.
Proof.
  destruct spans as [|[a b] rest]; cbn [chain]; [auto|].
  intros Hle (H1 & H2 & H3 & H4). repeat split; auto; lia.
Qed.

Lemma scan_chain (pat : pattern) (s : str) :
  forall skip pos prev,
    chain (pos + skip) (pos + length s)
      (map span_of (scan pat skip pos prev s)).
Proof.
  induction s as [|c s IH]; intros skip pos prev; cbn [scan].
  - destruct skip as [|k]; [|exact I].
    destruct (match_at pat pos prev []) as [m|] eqn:E; [|exact I].
    apply match_at_bounded in E. destruct E as [Hs He].
    cbn [map chain span_of length] in *. rewrite Hs. repeat split; lia.
  - destruct skip as [|k].
    + destruct (match_at pat pos prev (c :: s)) as [m|] eqn:E.
      * apply match_at_bounded in E. destruct E as [Hs He].
        cbn [map chain length] in *. unfold span_of at 1.
        rewrite Hs. repeat split; try lia.
        specialize (IH (m_end m - pos - 1) (S pos) (Some c)).
        replace (pos + S (length s)) with (S pos + length s) by lia.
        eapply chain_weaken; [|exact IH]. lia.
      * specialize (IH 0 (S pos) (Some c)). cbn [length].
        replace (pos + S (length s)) with (S pos + length s) by lia.
        eapply chain_weaken; [|exact IH]. lia.
    + specialize (IH k (S pos) (Some c)).
      cbn [length].
      replace (pos + S (length s)) with (S pos + length s) by lia.
      replace (pos + S k) with (S pos + k) by lia. exact IH.
Qed.

Lemma finditer_chain (pat : pattern) (text : str) :
  chain 0 (length text) (map span_of (finditer pat text)).
Proof. apply (scan_chain pat text 0 0 None). Qed.

Lemma chain_filter (f : rmatch -> bool) (ms : list rmatch) (lo hi : nat) :
  chain lo hi (map span_of ms) ->
  chain lo hi (map span_of (List.filter f ms)).
Proof.
  revert lo. induction ms as [|m ms IH]; intros lo; cbn [List.filter map];
    [auto|].
  cbn [chain]. unfold span_of at 1. intros (H1 & H2 & H3 & H4).
  destruct (f m).
  - cbn [map chain]. unfold span_of at 1. auto.
  - eapply chain_weaken; [|apply IH, H4]. lia.
Qed.

End EngineFacts.

Section SpliceFacts.

Lemma firstn_slice (text : str) (lo a : nat) :
  lo <= a -> firstn lo text ++ slice text lo a = firstn a text.
Proof.
  intros H. unfold slice.
  rewrite <- (firstn_skipn lo (firstn a text)).
  rewrite firstn_firstn, skipn_firstn_comm.
  replace (Nat.min lo a) with lo by lia. reflexivity.
Qed.

Lemma splice_rebuild (text : str) (spans : list (nat * nat * str)) :
  forall lo,
    chain lo (length text) (map fst spans) ->
    fold_left splice (rev spans) text =
      firstn lo text ++ rebuild text lo spans.
Proof.
  induction spans as [|[[a b] r] rest IH]; intros lo H.
  - cbn [rev fold_left rebuild]. symmetry. apply firstn_skipn.
  - cbn [map fst chain] in H. destruct H as (H1 & H2 & H3 & H4).
    cbn [rev]. rewrite fold_left_app. cbn [fold_left].
    rewrite (IH b H4). cbn [rebuild splice].
    assert (Hb : length (firstn b text) = b)
      by (rewrite length_firstn; lia).
    rewrite firstn_app, Hb, firstn_firstn.
    replace (a - b) with 0 by lia. replace (Nat.min a b) with a by lia.
    cbn [firstn]. rewrite app_nil_r.
    rewrite skipn_app, Hb, Nat.sub_diag. cbn [skipn].
    rewrite (skipn_all2 (firstn b text)) by lia. cbn [app].
    rewrite (app_assoc (firstn lo text)), firstn_slice by exact H1.
    reflexivity.
Qed.

End SpliceFacts.

Section OccurrenceFacts.

(** What [k*] consumed: a run of characters of the class, after which the
    continuation matched. *)
Lemma star_then_inv (k : cls) (cont : matcher) (s : str) :
  forall pos prev opens gs e gs',
    star_then k cont pos prev opens gs s = Some (e, gs') ->
    exists n prev',
      n <= length s /\
      forallb (in_cls k) (firstn n s) = true /\
      cont (pos + n) prev' opens gs (skipn n s) = Some (e, gs').
Proof.
  induction s as [|a s IH]; intros pos prev opens gs e gs' H;
    cbn [star_then] in H.
  - exists 0, prev. rewrite Nat.add_0_r. cbn. auto.
  - destruct (in_cls k a) eqn:Ha.
    + destruct (star_then k cont (S pos) (Some a) opens gs s)
        as [[e1 g1]|] eqn:E.
      * injection H as <- <-. apply IH in E.
        destruct E as (n & prev' & Hn & Hall & Hc).
        exists (S n), prev'. cbn [length firstn forallb skipn].
        rewrite Ha, Hall. replace (pos + S n) with (S pos + n) by lia.
        split; [lia|]. auto.
      * exists 0, prev. rewrite Nat.add_0_r. cbn. split; [lia|]. auto.
    + exists 0, prev. rewrite Nat.add_0_r. cbn. split; [lia|]. auto.
Qed.

(** A match of the scan pattern of the resolver reads [{{name}}] with a
    non-empty name that is the group. *)
Lemma pattern_match_here (pos : nat) (prev : option ascii) (s : str)
    (e : nat) (gs : list (nat * nat)) :
  match_here pattern_ pos prev [] [] s = Some (e, gs) ->
  exists name rest,
    s = reference name ++ rest /\
    name <> [] /\
    e = pos + length (reference name) /\
    gs = [(pos + 2, pos + 2 + length name)].
Proof.
  unfold pattern_, name_group. cbn [lit py list_ascii_of_string map app].
  cbn [match_here]. intros H.
  assert (H' : match s with
               | a :: s' =>
                   if chr_eqb a "{" then
                     match s' with
                     | b :: s'' =>
                         if chr_eqb b "{" then
                           match s'' with
                           | c :: t =>
                               if in_cls (Except "}") c then
                                 star_then (Except "}")
                                   (match_here [GClose; Chr "}"; Chr "}"])
                                   (S (S (S pos))) (Some c)
                                   [S (S pos)] [] t
                               else None
                           | [] => None
                           end
                         else None
                     | [] => None
                     end
                   else None
               | [] => None
               end = Some (e, gs)).
  { destruct prev as [p|]; [destruct (chr_eqb p "%"); [discriminate|]|];
      exact H. }
  clear H. destruct s as [|a [|b [|c t]]]; try discriminate;
    try (destruct (chr_eqb a "{"); discriminate).
  { destruct (chr_eqb a "{"); [|discriminate].
    destruct (chr_eqb b "{"); discriminate. }
  destruct (chr_eqb a "{") eqn:Ea; [|discriminate].
  destruct (chr_eqb b "{") eqn:Eb; [|discriminate].
  destruct (in_cls (Except "}") c) eqn:Ec; [|discriminate].
  apply chr_eqb_eq in Ea, Eb. subst a b.
  apply star_then_inv in H'.
  destruct H' as (n & prev' & Hn & Hall & Hc).
  cbn [match_here] in Hc.
  destruct (skipn n t) as [|x [|y rest]] eqn:Et; try discriminate;
    try (destruct (chr_eqb x "}"); discriminate).
  destruct (chr_eqb x "}") eqn:Ex; [|discriminate].
  destruct (chr_eqb y "}") eqn:Ey; [|discriminate].
  apply chr_eqb_eq in Ex, Ey. subst x y.
  injection Hc as <- <-.
  exists (c :: firstn n t), rest.
  assert (Hl : length (firstn n t) = n) by (rewrite length_firstn; lia).
  unfold reference. cbn [py list_ascii_of_string app length].
  rewrite !length_app, Hl. cbn [length app].
  repeat split.
  - rewrite <- (firstn_skipn n t) at 1. rewrite Et, <- app_assoc.
    reflexivity.
  - discriminate.
  - lia.
  - repeat f_equal; lia.
Qed.

(** Every match the scan reports was found at its own start, on what is
    left of the subject there. *)
Lemma scan_found (pat : pattern) (m : rmatch) (s : str) :
  forall skip pos prev,
    In m (scan pat skip pos prev s) ->
    exists pre prev' s',
      s = pre ++ s' /\
      match_at pat (pos + length pre) prev' s' = Some m.
Proof.
  induction s as [|c s IH]; intros skip pos prev Hin; cbn [scan] in Hin.
  - destruct skip; [|destruct Hin].
    destruct (match_at pat pos prev []) as [m'|] eqn:E; [|destruct Hin].
    destruct Hin as [<-|[]]. exists [], prev, [].
    rewrite Nat.add_0_r. auto.
  - assert (Hrec : forall k prev0,
              In m (scan pat k (S pos) prev0 s) ->
              exists pre prev' s',
                c :: s = pre ++ s' /\
                match_at pat (pos + length pre) prev' s' = Some m).
    { intros k prev0 H. apply IH in H.
      destruct H as (pre & prev' & s' & -> & Hm).
      exists (c :: pre), prev', s'. cbn [length app].
      replace (pos + S (length pre)) with (S pos + length pre) by lia.
      auto. }
    destruct skip as [|k]; [|eapply Hrec, Hin].
    destruct (match_at pat pos prev (c :: s)) as [m'|] eqn:E;
      [|eapply Hrec, Hin].
    destruct Hin as [<-|Hin]; [|eapply Hrec, Hin].
    exists [], prev, (c :: s). rewrite Nat.add_0_r. auto.
Qed.

Lemma scan_occurrence (text : str) (m : rmatch) :
  In m (finditer pattern_ text) ->
  group text m 1 <> [] /\
  group0 text m = reference (group text m 1).
Proof.
  intros Hin. apply scan_found in Hin.
  destruct Hin as (pre & prev' & s' & -> & Hm).
  unfold match_at in Hm. cbn [Nat.add] in Hm.
  destruct (match_here pattern_ (length pre) prev' [] [] s')
    as [[e gs]|] eqn:E; [|discriminate].
  injection Hm as <-.
  apply pattern_match_here in E.
  destruct E as (name & rest & -> & Hne & -> & ->).
  assert (Hg : group (pre ++ reference name ++ rest)
                 (RMatch (length pre) (length pre + length (reference name))
                    [(length pre + 2, length pre + 2 + length name)]) 1
               = name).
  { unfold group, slice. cbn [m_groups nth_error Nat.sub].
    replace (length pre + 2 + length name - (length pre + 2))
      with (length name) by lia.
    replace (length pre + 2) with (2 + length pre) by lia.
    rewrite <- skipn_skipn, skipn_app, Nat.sub_diag, skipn_all.
    unfold reference. cbn [py list_ascii_of_string app skipn].
    rewrite skipn_O, <- app_assoc, firstn_app, firstn_all, Nat.sub_diag.
    cbn [firstn]. apply app_nil_r. }
  rewrite Hg. split; [exact Hne|].
  unfold group0, slice. cbn [m_start m_end].
  replace (length pre + length (reference name) - length pre)
    with (length (reference name)) by lia.
  rewrite skipn_app, Nat.sub_diag, skipn_all, skipn_O. cbn [app].
  rewrite firstn_app, firstn_all, Nat.sub_diag. cbn [firstn].
  apply app_nil_r.
Qed.

End OccurrenceFacts.

(** ** The resolver *)

Section ResolverFacts.

Context (variables : vardict).

Lemma safe_variables_agree :
  agrees variables (map_fold (fun key value safe => <[key := safe_value value]> safe)
            ∅ variables).
Proof.
  unfold agrees, lookup_value.
  apply (map_fold_weak_ind
           (fun (safe : gmap str str) (m : vardict) =>
              forall k, match safe !! k with
                        | Some v =>
                            v = match m !! k with
                                | Some (Some []) => py "UNKNOWN"
                                | Some (Some v) => v
                                | Some None => py "UNKNOWN"
                                | None => py "UNKNOWN"
                                end
                        | None =>
                            match m !! k with
                            | Some (Some []) => py "UNKNOWN"
                            | Some (Some v) => v
                            | Some None => py "UNKNOWN"
                            | None => py "UNKNOWN"
                            end = UNKNOWN
                        end)).
  - intros k. rewrite !lookup_empty. reflexivity.
  - intros i x m r Hi IH k.
    destruct (decide (i = k)) as [->|Hne].
    + rewrite !lookup_insert_eq. destruct x as [[|c v]|]; reflexivity.
    + rewrite !lookup_insert_ne by exact Hne. apply IH.
Qed.

Lemma resolve_step_spec (text : str) (escape_info : option EscapeInfo)
    (safe : gmap str str) (result : str) (m : rmatch) :
  agrees variables safe ->
  exists safe',
    agrees variables safe' /\
    resolve_step text escape_info (safe, result) m =
      Ok (safe',
          if should_replace escape_info m
          then splice result (substitution text variables m)
          else result).
Proof.
  intros Hsafe. unfold resolve_step, substitution, splice.
  set (name := strip (group text m 1)).
  pose proof (Hsafe name) as Hn.
  destruct (safe !! name) as [v|] eqn:E.
  - exists safe. split; [exact Hsafe|].
    unfold dict_get. rewrite E. cbn [bind]. rewrite Hn.
    destruct (should_replace escape_info m); reflexivity.
  - exists (<[name := UNKNOWN]> safe). split.
    + intros k. destruct (decide (name = k)) as [<-|Hne].
      * rewrite lookup_insert_eq. symmetry. exact Hn.
      * rewrite lookup_insert_ne by exact Hne. apply Hsafe.
    + unfold dict_get. rewrite lookup_insert_eq. cbn [bind]. rewrite Hn.
      destruct (should_replace escape_info m); reflexivity.
Qed.

Lemma resolve_loop_spec (text : str) (escape_info : option EscapeInfo)
    (ms : list rmatch) :
  forall safe result,
    agrees variables safe ->
    exists safe',
      for_each ms (safe, result) (resolve_step text escape_info) =
        Ok (safe',
            fold_left splice
              (map (substitution text variables)
                 (List.filter (should_replace escape_info) ms))
              result).
Proof.
  induction ms as [|m ms IH]; intros safe result Hsafe; cbn [for_each].
  - exists safe. reflexivity.
  - destruct (resolve_step_spec text escape_info safe result m Hsafe)
      as (safe1 & Hsafe1 & ->).
    cbn [bind List.filter].
    destruct (should_replace escape_info m); cbn [map fold_left];
      apply IH, Hsafe1.
Qed.

End ResolverFacts.


Lemma contains_char (c : ascii) (s : str) :
  contains s [c] = false -> ~ In c s.
Proof.
  induction s as [|a s IH]; cbn [contains startswith In]; [tauto|].
  replace (startswith s []) with true by (destruct s; reflexivity).
  rewrite andb_true_r. intros H. apply orb_false_elim in H.
  destruct H as [Ha Hs]. apply chr_eqb_neq in Ha.
  intros [E|E]; [congruence | exact (IH Hs E)].
Qed.

(** The loop of the resolver, from the last match to the first, gives the
    text rebuilt from left to right. *)
Lemma resolve_variables_rebuild (text : str) (variables : option vardict)
    (escape_info : option EscapeInfo) :
  resolve_variables text variables escape_info =
    Ok (rebuild text 0
          (map (substitution text (default ∅ variables))
             (List.filter (should_replace escape_info)
                (finditer pattern_ text)))).
Proof.
  unfold resolve_variables.
  replace (match variables with Some d => d | None => ∅ end)
    with (default ∅ variables) by (destruct variables; reflexivity).
  destruct (resolve_loop_spec (default ∅ variables) text escape_info
              (rev (finditer pattern_ text)) _ text
              (safe_variables_agree (default ∅ variables)))
    as (safe' & ->).
  cbn [bind snd]. f_equal.
  rewrite List.filter_rev, List.map_rev.
  rewrite (splice_rebuild text _ 0); [reflexivity|].
  rewrite map_map.
  apply (chain_filter _ _ 0 (length text)), finditer_chain.
Qed.

(** * The claims *)

(** C1: a line [\---] of its own does not keep the document in one block.
    Document-level escape processing turns it into the literal line [---]
    before the separator pattern is applied, and the pattern then splits
    there: the document [a], [\---], [b] gives the two blocks [a] and
    [b]. *)
Theorem escaped_separator_still_splits :
  MarkdownFlowBlockParser.parse_document escaped_separator_document =
    Ok [mkBlock (py "a") CONTENT 0; mkBlock (py "b") CONTENT 1].
Proof. vm_compute. reflexivity. Qed.

(** C2: whatever the variable map, the content block [\{{x}}] resolves
    to the literal [{{x}}], and the content block [\%{{x}}] resolves to
    [%{{x}}]: the reference after the escaped percent sign is not
    substituted either, although the unescaped block [{{x}}] resolves to
    the value of [x], which is [v] when [x] is mapped to [v]. *)
Theorem partial_escape_not_substituted :
  (forall variables : vardict,
     MarkdownFlowUnifiedParser.process_block_content
       (mkBlock (py "\{{x}}") CONTENT 0) (Some variables) =
       Ok (py "{{x}}") /\
     MarkdownFlowUnifiedParser.process_block_content
       (mkBlock (py "\%{{x}}") CONTENT 0) (Some variables) =
       Ok (py "%{{x}}") /\
     MarkdownFlowUnifiedParser.process_block_content
       (mkBlock (py "{{x}}") CONTENT 0) (Some variables) =
       Ok (lookup_value variables (py "x"))) /\
  MarkdownFlowUnifiedParser.process_block_content
    (mkBlock (py "\%{{x}}") CONTENT 0) (Some x_is_v) = Ok (py "%{{x}}") /\
  MarkdownFlowUnifiedParser.process_block_content
    (mkBlock (py "{{x}}") CONTENT 0) (Some x_is_v) = Ok (py "v").
Proof.
  split; [|split; vm_compute; reflexivity].
  intros variables.
  unfold MarkdownFlowUnifiedParser.process_block_content.
  cbn [block_type content].
  rewrite !resolve_variables_rebuild.
  split; [vm_compute; reflexivity|]. split; [vm_compute; reflexivity|].
  replace (processed_content (parse_content_block (py "{{x}}")))
    with (py "{{x}}") by (vm_compute; reflexivity).
  match goal with
  | |- context [List.filter ?f ?l] =>
      replace (List.filter f l) with [RMatch 0 5 [(2, 3)]]
        by (vm_compute; reflexivity)
  end.
  cbn [map rebuild]. unfold substitution. cbn [m_start m_end default].
  replace (strip (group (py "{{x}}") (RMatch 0 5 [(2, 3)]) 1))
    with (py "x") by (vm_compute; reflexivity).
  change (slice (py "{{x}}") 0 0) with (@nil ascii).
  change (skipn 5 (py "{{x}}")) with (@nil ascii).
  cbn [app]. rewrite app_nil_r. reflexivity.
Qed.

(** C3: on two partial escapes, [\%{{a}}\%{{b}}], the processed text is
    [%{{a}}%{{b}}] and the recorded positions are [(8, 13)] and [(1, 6)]:
    the first recorded range is not the reference [{{b}}], which sits at
    [(7, 12)] of the processed text. *)
Theorem stale_variable_positions :
  processed_text (process_inline_escapes two_partial_escapes) =
    py "%{{a}}%{{b}}" /\
  variable_positions (process_inline_escapes two_partial_escapes) =
    [(8, 13); (1, 6)] /\
  slice (processed_text (process_inline_escapes two_partial_escapes)) 8 13 =
    py "{b}}" /\
  slice (processed_text (process_inline_escapes two_partial_escapes)) 7 12 =
    reference (py "b").
Proof. repeat split; vm_compute; reflexivity. Qed.

(** C4: the scenario document parses into the content block
    [Hello {{name}}] with variables [name] and the interaction block
    [?[%{{choice}}Yes|No]], whose descriptor is buttons-only with variable
    [choice] and buttons Yes and No; the variables of the document are
    [choice], [name]. *)
Theorem end_to_end_scenario :
  MarkdownFlowUnifiedParser.parse_document scenario =
    Ok ([mkBlock (py "Hello {{name}}") CONTENT 0;
         mkBlock (py "?[%{{choice}}Yes|No]") INTERACTION 1],
        [py "choice"; py "name"]) /\
  variables (parse_content_block (py "Hello {{name}}")) = [py "name"] /\
  (exists r,
     parse_interaction_block (py "?[%{{choice}}Yes|No]") = Ok r /\
     interaction r =
       ButtonsOnly (py "choice")
         [mkButton (py "Yes") (py "Yes"); mkButton (py "No") (py "No")]).
Proof.
  split; [vm_compute; reflexivity|]. split; [vm_compute; reflexivity|].
  eexists. split; vm_compute; reflexivity.
Qed.

(** C5: for every document, [parse_document] returns a list of blocks
    whose indices are [0 .. len-1] in order, whose contents are the
    trimmed segments of the document that are not blank, in document
    order, and none of which is blank. *)
Theorem block_indices_contiguous (document : str) :
  exists blocks,
    MarkdownFlowBlockParser.parse_document document = Ok blocks /\
    map index blocks = seq 0 (length blocks) /\
    map content blocks =
      map strip
        (List.filter (fun segment => negb (blank segment))
           (Re.split block_separator_pattern
              (processed_text (process_document_escapes document)))) /\
    Forall (fun b => blank (content b) = false) blocks.
Proof.
  unfold MarkdownFlowBlockParser.parse_document.
  set (raw := Re.split _ _).
  destruct (collect_blocks_spec (enumerate raw) []) as (bs & -> & Hc).
  cbn [bind app]. eexists. split; [reflexivity|].
  destruct (reindex_spec bs) as [Hi Hcc]. cbn zeta in Hi, Hcc.
  rewrite map_snd_enumerate in Hc.
  split; [exact Hi|]. split; [rewrite Hcc; exact Hc|].
  apply List.Forall_forall. intros b Hb.
  apply (in_map content) in Hb. rewrite Hcc, Hc in Hb.
  apply in_map_iff in Hb. destruct Hb as (s & <- & Hs).
  apply filter_In in Hs. destruct Hs as [_ Hs].
  unfold blank in *. rewrite strip_idem.
  destruct (strip s); [discriminate | reflexivity].
Qed.

(** C6: a segment whose trimmed text starts with [?[] and ends with []]
    becomes an interaction block when it has as many [[] as []], whatever
    else it looks like, and an ordinary content block when it has not. *)
Theorem classification_priority (content : str) (i : nat) :
  startswith (strip content) (py "?[") = true ->
  endswith (strip content) (py "]") = true ->
  _parse_single_block content i =
    Ok (Some (mkBlock (strip content)
                (if brackets_balanced (strip content)
                 then INTERACTION else CONTENT) i)).
Proof.
  intros Hs He. unfold _parse_single_block.
  assert (Hi : _is_interaction_block (strip content) =
               brackets_balanced (strip content)).
  { unfold _is_interaction_block. rewrite strip_idem, Hs, He.
    cbn [andb negb]. apply bracket_count_balanced. }
  destruct (strip content) as [|c s] eqn:E; [discriminate|].
  rewrite Hi. destruct (brackets_balanced (c :: s)); [reflexivity|].
  cbn [startswith py list_ascii_of_string] in Hs.
  apply andb_prop in Hs. destruct Hs as [Hc _].
  apply chr_eqb_eq in Hc. subst c.
  rewrite question_mark_not_preserved. reflexivity.
Qed.

Lemma classification_priority_witness :
  _parse_single_block (py " ?[a[b]] ") 3 =
    Ok (Some (mkBlock (py "?[a[b]]") INTERACTION 3)) /\
  _parse_single_block (py "?[a[b]") 0 =
    Ok (Some (mkBlock (py "?[a[b]") CONTENT 0)).
Proof.
  split.
  - apply (classification_priority (py " ?[a[b]] ") 3); reflexivity.
  - apply (classification_priority (py "?[a[b]") 0); reflexivity.
Defined.

(** C7: [_parse_buttons] never raises and returns what the specification
    says: the segments between [|], without those that are empty once
    trimmed, each split on its first [//] into a trimmed display and
    value, or standing for both when it has no [//]; on
    [A//1|B|  |C//2//x] that is (A, 1), (B, B), (C, 2//x). *)
Theorem parse_buttons_first_separator_only :
  (forall content : str,
     _parse_buttons content = Ok (parse_buttons_spec content)) /\
  _parse_buttons example_buttons =
    Ok [mkButton (py "A") (py "1"); mkButton (py "B") (py "B");
        mkButton (py "C") (py "2//x")].
Proof.
  split; [exact _parse_buttons_spec | vm_compute; reflexivity].
Qed.

(** C8: a reference that the escape context marks as substitutable is
    not always replaced.  Inline escaping of [\%{{x}}] gives the text
    [%{{x}}] with a partial escape whose recorded position [(1, 6)] is
    the reference [{{x}}]; resolving this text in this context, with [x]
    mapped to [v], returns [%{{x}}] and not [%v].  In a partial context
    a match is replaced only when its start lies in a recorded range: in
    [\%{{a}}\%{{b}}{{x}} {{x}}] the first [{{x}}] starts inside the range
    recorded for [{{b}}] and becomes [v], the second stays.  What holds:
    resolution never raises, and without escape information, or with the
    escape type [NONE], every match of the scan pattern is replaced by
    the value of its trimmed name, the mapped value when it is neither
    null nor empty and [UNKNOWN] otherwise. *)
Theorem substitutable_reference_not_replaced :
  (escape_type (process_inline_escapes (py "\%{{x}}")) = PARTIAL /\
   variable_positions (process_inline_escapes (py "\%{{x}}")) = [(1, 6)] /\
   slice (processed_text (process_inline_escapes (py "\%{{x}}"))) 1 6 =
     reference (py "x") /\
   resolve_variables (processed_text (process_inline_escapes (py "\%{{x}}")))
     (Some x_is_v) (Some (process_inline_escapes (py "\%{{x}}"))) =
     Ok (py "%{{x}}")) /\
  resolve_variables
    (processed_text (process_inline_escapes (py "\%{{a}}\%{{b}}{{x}} {{x}}")))
    (Some x_is_v)
    (Some (process_inline_escapes (py "\%{{a}}\%{{b}}{{x}} {{x}}"))) =
    Ok (py "%{{a}}%{{b}}v {{x}}") /\
  resolve_variables (py "{{x}} and {{y}}") (Some x_is_v) None =
    Ok (py "v and UNKNOWN") /\
  (forall (text : str) (variables : option vardict),
     resolve_variables text variables None =
       Ok (rebuild text 0
             (map (substitution text (default ∅ variables))
                (finditer pattern_ text)))) /\
  (forall (text : str) (variables : option vardict)
          (original processed : str) (positions : list (nat * nat)),
     resolve_variables text variables
       (Some (mkEscapeInfo NONE original processed positions)) =
       Ok (rebuild text 0
             (map (substitution text (default ∅ variables))
                (finditer pattern_ text)))) /\
  (forall (text : str) (variables : option vardict)
          (escape_info : option EscapeInfo),
     exists result, resolve_variables text variables escape_info = Ok result).
Proof.
  assert (Hall : forall (f : rmatch -> bool) (l : list rmatch),
            (forall m, f m = true) -> List.filter f l = l).
  { intros f l Hf. induction l as [|m l IH]; cbn [List.filter];
      [reflexivity|]. rewrite Hf, IH. reflexivity. }
  split; [repeat split; vm_compute; reflexivity|].
  split; [vm_compute; reflexivity|].
  split; [vm_compute; reflexivity|].
  split; [|split].
  - intros text variables. rewrite resolve_variables_rebuild.
    rewrite Hall by reflexivity. reflexivity.
  - intros text variables original processed positions.
    rewrite resolve_variables_rebuild.
    rewrite Hall by reflexivity. reflexivity.
  - intros text variables escape_info. eexists.
    apply resolve_variables_rebuild.
Qed.

(** C9: on a text without backslash both escape passes return the text
    itself, the escape type [NONE] and no variable position. *)
Theorem escapes_identity_without_backslash (text : str) :
  contains text [backslash] = false ->
  process_document_escapes text = mkEscapeInfo NONE text text [] /\
  process_inline_escapes text = mkEscapeInfo NONE text text [].
Proof.
  intros Hc. apply contains_char in Hc. split.
  - unfold process_document_escapes, _process_escapes, DOCUMENT_ESCAPES.
    cbn [fold_left].
    change (lit "\---") with (Chr backslash :: lit "---").
    change (lit "\===") with (Chr backslash :: lit "===").
    change (lit "\?[") with (Chr backslash :: lit "?[").
    rewrite !full_pass_no_backslash by exact Hc. reflexivity.
  - unfold process_inline_escapes, _process_escapes.
    rewrite partial_pass_no_backslash by exact Hc.
    unfold INLINE_ESCAPES. cbn [fold_left].
    change (lit "\...") with (Chr backslash :: lit "...").
    change (lit "\|") with (Chr backslash :: lit "|").
    change (lit "\//") with (Chr backslash :: lit "//").
    change (lit "\{{" ++ name_group ++ lit "}}") with
      (Chr backslash :: (lit "{{" ++ name_group ++ lit "}}")).
    rewrite !full_pass_no_backslash by exact Hc. reflexivity.
Qed.

Lemma escapes_identity_without_backslash_witness :
  process_document_escapes scenario =
    mkEscapeInfo NONE scenario scenario [] /\
  process_inline_escapes scenario =
    mkEscapeInfo NONE scenario scenario [].
Proof.
  apply (escapes_identity_without_backslash scenario). reflexivity.
Defined.

(** C10: content that does not both start with [?[] and end with []] is
    not stripped and does not make [parse_interaction_block] raise: the
    whole string is escaped and parsed as the interaction content, and
    when it is already trimmed the result is the one of the same string
    between [?[] and []]. *)
Theorem parse_interaction_block_unbracketed (content : str) :
  startswith content (py "?[") && endswith content (py "]") = false ->
  exists r,
    _parse_interaction_content
      (processed_text (process_inline_escapes content)) = Ok r /\
    parse_interaction_block content =
      Ok (mkInteractionResult r (process_inline_escapes content) content) /\
    (strip content = content ->
     parse_interaction_block (py "?[" ++ content ++ py "]") =
       Ok (mkInteractionResult r (process_inline_escapes content)
             (py "?[" ++ content ++ py "]"))).
Proof.
  intros H.
  destruct (_parse_interaction_content_total
              (processed_text (process_inline_escapes content))) as (r & Hr).
  exists r. split; [exact Hr|]. split.
  - unfold parse_interaction_block. rewrite H, Hr. reflexivity.
  - intros Hstrip.
    pose proof (slice_interior content) as Hsl. cbn zeta in Hsl.
    assert (Hs : startswith (py "?[" ++ content ++ py "]") (py "?[") = true)
      by apply startswith_app.
    assert (He : endswith (py "?[" ++ content ++ py "]") (py "]") = true)
      by (rewrite app_assoc; apply endswith_app).
    unfold parse_interaction_block.
    rewrite Hs, He. cbn [andb]. rewrite Hsl, Hstrip, Hr. reflexivity.
Qed.

Lemma parse_interaction_block_unbracketed_witness :
  exists r,
    _parse_interaction_content
      (processed_text (process_inline_escapes (py "%{{c}}A|B"))) = Ok r /\
    parse_interaction_block (py "%{{c}}A|B") =
      Ok (mkInteractionResult r (process_inline_escapes (py "%{{c}}A|B"))
            (py "%{{c}}A|B")) /\
    parse_interaction_block (py "?[" ++ py "%{{c}}A|B" ++ py "]") =
      Ok (mkInteractionResult r (process_inline_escapes (py "%{{c}}A|B"))
            (py "?[" ++ py "%{{c}}A|B" ++ py "]")).
Proof.
  destruct (parse_interaction_block_unbracketed (py "%{{c}}A|B") eq_refl)
    as (r & H1 & H2 & H3).
  exists r. split; [exact H1|]. split; [exact H2|].
  apply H3. reflexivity.
Defined.

(** * Further properties *)

(** ** Escape information *)

Section EscapeInfoFacts.

Lemma process_document_escapes_plain (text : str) :
  ~ In backslash text ->
  process_document_escapes text = mkEscapeInfo NONE text text [].
Proof.
  intros Hc.
  unfold process_document_escapes, _process_escapes, DOCUMENT_ESCAPES.
  cbn [fold_left].
  change (lit "\---") with (Chr backslash :: lit "---").
  change (lit "\===") with (Chr backslash :: lit "===").
  change (lit "\?[") with (Chr backslash :: lit "?[").
  rewrite !full_pass_no_backslash by exact Hc. reflexivity.
Qed.

Lemma process_inline_escapes_plain (text : str) :
  ~ In backslash text ->
  process_inline_escapes text = mkEscapeInfo NONE text text [].
Proof.
  intros Hc. unfold process_inline_escapes, _process_escapes.
  rewrite partial_pass_no_backslash by exact Hc.
  unfold INLINE_ESCAPES. cbn [fold_left].
  change (lit "\...") with (Chr backslash :: lit "...").
  change (lit "\|") with (Chr backslash :: lit "|").
  change (lit "\//") with (Chr backslash :: lit "//").
  change (lit "\{{" ++ name_group ++ lit "}}") with
    (Chr backslash :: (lit "{{" ++ name_group ++ lit "}}")).
  rewrite !full_pass_no_backslash by exact Hc. reflexivity.
Qed.

(** The full passes leave the positions alone, keep a partial escape
    partial, and make nothing partial that was not. *)
Lemma full_passes_keep (escapes : list (pattern * (template * EscapeType)))
    (text : str) (e : EscapeType) (ps : list (nat * nat)) :
  Forall (fun entry => snd (snd entry) = FULL) escapes ->
  exists text' e',
    fold_left full_pass escapes (text, e, ps) = (text', e', ps) /\
    (e = PARTIAL <-> e' = PARTIAL).
Proof.
  intros Hall. revert text e.
  induction escapes as [|[pat [repl ty]] escapes IH]; intros text e.
  - exists text, e. split; [reflexivity | tauto].
  - inversion Hall as [|x l Hty Hrest]; subst. cbn [snd] in Hty. subst ty.
    cbn [fold_left]. unfold full_pass at 2.
    destruct (search pat text).
    + destruct (IH Hrest (sub pat repl text)
                  (if EscapeType_eqb e NONE then FULL else e))
        as (t' & e' & -> & He).
      exists t', e'. split; [reflexivity|]. rewrite <- He.
      destruct e; cbn; split; congruence.
    + apply IH, Hrest.
Qed.

End EscapeInfoFacts.

(** X1: document-level processing never yields a partial escape and never
    records a position; inline processing records positions only when
    the escape is partial; both keep the input as the original text. *)
Theorem escape_info_positions (text : str) :
  (escape_type (process_document_escapes text) <> PARTIAL /\
   variable_positions (process_document_escapes text) = []) /\
  (escape_type (process_inline_escapes text) = PARTIAL \/
   variable_positions (process_inline_escapes text) = []) /\
  original_text (process_document_escapes text) = text /\
  original_text (process_inline_escapes text) = text.
Proof.
  assert (Hd : Forall (fun entry : pattern * (template * EscapeType) =>
                         snd (snd entry) = FULL) DOCUMENT_ESCAPES)
    by (repeat constructor).
  assert (Hi : Forall (fun entry : pattern * (template * EscapeType) =>
                         snd (snd entry) = FULL) INLINE_ESCAPES)
    by (repeat constructor).
  repeat split.
  - unfold process_document_escapes, _process_escapes. cbn [fold_left].
    destruct (full_passes_keep DOCUMENT_ESCAPES text NONE [] Hd)
      as (t' & e' & -> & He).
    cbn [escape_type]. intros E. apply He in E. discriminate.
  - unfold process_document_escapes, _process_escapes. cbn [fold_left].
    destruct (full_passes_keep DOCUMENT_ESCAPES text NONE [] Hd)
      as (t' & e' & -> & He).
    reflexivity.
  - unfold process_inline_escapes, _process_escapes, PARTIAL_ESCAPES.
    cbn [fold_left]. unfold partial_pass.
    destruct (finditer (lit "\%{{" ++ name_group ++ lit "}}") text)
      as [|m ms].
    + destruct (full_passes_keep INLINE_ESCAPES text NONE [] Hi)
        as (t' & e' & -> & He).
      right. reflexivity.
    + destruct (fold_left _ (rev (m :: ms)) (text, [])) as [t1 ps1].
      destruct (full_passes_keep INLINE_ESCAPES t1 PARTIAL ps1 Hi)
        as (t' & e' & -> & He).
      left. cbn [escape_type]. apply He. reflexivity.
  - unfold process_document_escapes, _process_escapes.
    destruct (fold_left full_pass _ _) as [[? ?] ?]. reflexivity.
  - unfold process_inline_escapes, _process_escapes.
    destruct (fold_left full_pass _ _) as [[? ?] ?]. reflexivity.
Qed.

(** ** What the resolver leaves alone *)

Section UnchangedFacts.

Lemma scan_lookbehind_absent (d c : ascii) (r : pattern) (s : str) :
  ~ In c s ->
  forall skip pos prev, scan (NotAfter d :: Chr c :: r) skip pos prev s = [].
Proof.
  induction s as [|a s IH]; intros Hin skip pos prev.
  - destruct skip; [|reflexivity]. cbn [scan]. unfold match_at.
    cbn [match_here]. destruct prev as [p|]; [destruct (chr_eqb p d)|];
      reflexivity.
  - assert (Ha : chr_eqb a c = false).
    { apply chr_eqb_neq. intros ->. apply Hin. left. reflexivity. }
    assert (Hs : ~ In c s) by (intros H; apply Hin; right; exact H).
    cbn [scan]. destruct skip as [|k]; [|apply IH, Hs].
    unfold match_at. cbn [match_here]. rewrite Ha.
    destruct prev as [p|]; [destruct (chr_eqb p d)|]; apply IH, Hs.
Qed.

Lemma filter_none {A : Type} (f : A -> bool) (l : list A) :
  (forall x, f x = false) -> List.filter f l = [].
Proof.
  intros H. induction l as [|x l IH]; cbn [List.filter]; [reflexivity|].
  rewrite H. exact IH.
Qed.

Lemma filter_all {A : Type} (f : A -> bool) (l : list A) :
  (forall x, f x = true) -> List.filter f l = l.
Proof.
  intros H. induction l as [|x l IH]; cbn [List.filter]; [reflexivity|].
  rewrite H, IH. reflexivity.
Qed.

End UnchangedFacts.

(** X2: under a full escape the resolver returns the text as it is,
    whatever it contains and whatever the variables. *)
Theorem resolve_variables_full_escape (text : str)
    (variables : option vardict) (info : EscapeInfo) :
  escape_type info = FULL ->
  resolve_variables text variables (Some info) = Ok text.
Proof.
  intros H. rewrite resolve_variables_rebuild.
  rewrite filter_none; [reflexivity|].
  intros m. unfold should_replace. rewrite H. reflexivity.
Qed.

Lemma resolve_variables_full_escape_witness :
  resolve_variables (py "{{x}} and {{y}}") (Some x_is_v)
    (Some (mkEscapeInfo FULL (py "\{{x}} and {{y}}")
             (py "{{x}} and {{y}}") [])) =
    Ok (py "{{x}} and {{y}}").
Proof.
  apply (resolve_variables_full_escape (py "{{x}} and {{y}}")
           (Some x_is_v)
           (mkEscapeInfo FULL (py "\{{x}} and {{y}}")
              (py "{{x}} and {{y}}") [])).
  reflexivity.
Defined.

(** X3: a text without an opening brace is returned as it is, whatever
    the variables and the escape information. *)
Theorem resolve_variables_no_brace (text : str)
    (variables : option vardict) (escape_info : option EscapeInfo) :
  contains text (py "{") = false ->
  resolve_variables text variables escape_info = Ok text.
Proof.
  intros H. apply (contains_char "{") in H.
  rewrite resolve_variables_rebuild. unfold finditer.
  change pattern_ with
    (NotAfter "%" :: Chr "{" :: (lit "{" ++ name_group ++ lit "}}")).
  rewrite scan_lookbehind_absent by exact H. reflexivity.
Qed.

Lemma resolve_variables_no_brace_witness :
  resolve_variables (py "100% plain }} text") (Some x_is_v) None =
    Ok (py "100% plain }} text").
Proof.
  apply (resolve_variables_no_brace (py "100% plain }} text")
           (Some x_is_v) None).
  reflexivity.
Defined.

Section LineFacts.

Lemma startswith_nil (s : str) : startswith s [] = true.
Proof. destruct s; reflexivity. Qed.

Lemma split_char_app (c : ascii) (a b cur : str) :
  split_from [c] None 0 cur (a ++ c :: b) =
  split_from [c] None 0 cur a ++ split_from [c] None 0 [] b.
Proof.
  revert cur. induction a as [|x a IH]; intros cur;
    cbn [app split_from startswith option_map length Nat.sub].
  - rewrite chr_eqb_refl, startswith_nil. reflexivity.
  - rewrite !startswith_nil, !andb_true_r.
    destruct (chr_eqb c x); rewrite IH; reflexivity.
Qed.

Lemma split_char_absent (c : ascii) (s cur : str) :
  ~ In c s -> split_from [c] None 0 cur s = [rev cur ++ s].
Proof.
  revert cur. induction s as [|x s IH]; intros cur H;
    cbn [split_from startswith].
  - rewrite app_nil_r. reflexivity.
  - assert (Hx : chr_eqb c x = false).
    { apply chr_eqb_neq. intros ->. apply H. left. reflexivity. }
    rewrite Hx. cbn [andb]. rewrite IH by (intros E; apply H; right; exact E).
    cbn [rev]. rewrite <- app_assoc. reflexivity.
Qed.

Lemma join_split_char (c : ascii) (s cur : str) :
  join [c] (split_from [c] None 0 cur s) = rev cur ++ s.
Proof.
  revert cur. induction s as [|x s IH]; intros cur;
    cbn [split_from startswith option_map length Nat.sub].
  - cbn [join]. rewrite app_nil_r. reflexivity.
  - rewrite startswith_nil, andb_true_r.
    destruct (chr_eqb c x) eqn:E.
    + apply chr_eqb_eq in E. subst x.
      destruct (split_from_cons [c] None 0 [] s) as (p & l & Hp).
      pose proof (IH []) as Hj. rewrite Hp in *.
      cbn [join]. cbn [join rev] in Hj. change (rev [] ++ s) with s in Hj.
      rewrite Hj. reflexivity.
    + rewrite IH. cbn [rev]. rewrite <- app_assoc. reflexivity.
Qed.

Lemma rstrip_snoc (s : str) (c : ascii) :
  isspace c = false -> rstrip (s ++ [c]) = s ++ [c].
Proof.
  intros H. unfold rstrip. rewrite rev_app_distr. cbn [rev app lstrip].
  rewrite H. cbn [rev]. rewrite rev_involutive. reflexivity.
Qed.

Lemma strip_fixed (c d : ascii) (s : str) :
  isspace c = false -> isspace d = false ->
  strip (c :: s ++ [d]) = c :: s ++ [d].
Proof.
  intros Hc Hd. rewrite strip_cons by exact Hc.
  rewrite rstrip_snoc by exact Hd. reflexivity.
Qed.

Lemma fenced_lines (body : str) :
  Py.split (fenced body) [newline] =
  py "===" :: Py.split body [newline] ++ [py "==="].
Proof.
  unfold Py.split, fenced. cbn [app].
  rewrite (split_char_app newline (py "===") _ []).
  rewrite (split_char_app newline body (py "===") []).
  reflexivity.
Qed.

End LineFacts.

Section LookBehindFacts.

Lemma last_char_cons (c : ascii) (pre : str) (prev : option ascii) :
  last_char (c :: pre) prev = last_char pre (Some c).
Proof.
  unfold last_char. cbn [rev].
  destruct (rev pre) as [|x r]; reflexivity.
Qed.

(** Every match the scan reports was found at its own start, with the
    character before it for the look-behind. *)
Lemma scan_found_prev (pat : pattern) (m : rmatch) (s : str) :
  forall skip pos prev,
    In m (scan pat skip pos prev s) ->
    exists pre s',
      s = pre ++ s' /\
      match_at pat (pos + length pre) (last_char pre prev) s' = Some m.
Proof.
  induction s as [|c s IH]; intros skip pos prev Hin; cbn [scan] in Hin.
  - destruct skip; [|destruct Hin].
    destruct (match_at pat pos prev []) as [m'|] eqn:E; [|destruct Hin].
    destruct Hin as [<-|[]]. exists [], [].
    rewrite Nat.add_0_r. auto.
  - assert (Hrec : forall k,
              In m (scan pat k (S pos) (Some c) s) ->
              exists pre s',
                c :: s = pre ++ s' /\
                match_at pat (pos + length pre) (last_char pre prev) s'
                  = Some m).
    { intros k H. apply IH in H.
      destruct H as (pre & s' & -> & Hm).
      exists (c :: pre), s'. cbn [length app]. rewrite last_char_cons.
      replace (pos + S (length pre)) with (S pos + length pre) by lia.
      auto. }
    destruct skip as [|k]; [|eapply Hrec, Hin].
    destruct (match_at pat pos prev (c :: s)) as [m'|] eqn:E;
      [|eapply Hrec, Hin].
    destruct Hin as [<-|Hin]; [|eapply Hrec, Hin].
    exists [], (c :: s). rewrite Nat.add_0_r. auto.
Qed.

Lemma last_char_endswith (pre : str) (c : ascii) :
  last_char pre None <> Some c -> endswith pre [c] = false.
Proof.
  unfold last_char, endswith. cbn [rev app].
  destruct (rev pre) as [|x r]; [reflexivity|].
  intros H. cbn [startswith]. rewrite startswith_nil, andb_true_r.
  apply chr_eqb_neq. congruence.
Qed.

End LookBehindFacts.

(** X4: every match of the scan pattern of the resolver is a reference
    [{{name}}] that sits in the text at the start of the match and is
    not preceded by a percent sign: a reference after [%] is never one of
    the spans the resolver replaces. *)
Theorem reference_never_after_percent (text : str) :
  Forall (fun m =>
            exists pre rest,
              text = pre ++ reference (group text m 1) ++ rest /\
              m_start m = length pre /\
              endswith pre (py "%") = false)
    (finditer pattern_ text).
Proof.
  apply List.Forall_forall. intros m Hin.
  destruct (scan_occurrence text m Hin) as [_ Hg0].
  apply scan_found_prev in Hin.
  destruct Hin as (pre & s' & -> & Hm).
  unfold match_at in Hm. cbn [Nat.add] in Hm.
  destruct (match_here pattern_ (length pre) (last_char pre None) [] [] s')
    as [[e gs]|] eqn:E; [|discriminate].
  injection Hm as <-.
  assert (Hp : last_char pre None <> Some "%"%char).
  { intros Hp. rewrite Hp in E. discriminate. }
  pose proof E as E'. apply pattern_match_here in E'.
  destruct E' as (name & rest & -> & _ & -> & ->).
  exists pre, rest. cbn [m_start].
  split; [|split; [reflexivity | apply last_char_endswith, Hp]].
  rewrite <- Hg0. unfold group0, slice. cbn [m_start m_end].
  replace (length pre + length (reference name) - length pre)
    with (length (reference name)) by lia.
  rewrite skipn_app, Nat.sub_diag, skipn_all, skipn_O. cbn [app].
  rewrite firstn_app, firstn_all, Nat.sub_diag. cbn [firstn].
  rewrite app_nil_r. reflexivity.
Qed.

(** X5: on a content block without backslash, [process_block_content]
    replaces every match of the scan pattern by the value of its trimmed
    name, the fallback when the name has none. *)
Theorem process_block_content_plain (block : Block)
    (variables : option vardict) :
  block_type block = CONTENT ->
  contains (content block) [backslash] = false ->
  MarkdownFlowUnifiedParser.process_block_content block variables =
    Ok (rebuild (content block) 0
          (map (substitution (content block) (default ∅ variables))
             (finditer pattern_ (content block)))).
Proof.
  intros Ht Hc. apply contains_char in Hc.
  unfold MarkdownFlowUnifiedParser.process_block_content. rewrite Ht.
  unfold parse_content_block.
  rewrite (process_inline_escapes_plain _ Hc).
  cbn [processed_content content_escape_info processed_text].
  rewrite resolve_variables_rebuild.
  rewrite filter_all by reflexivity.
  destruct variables; reflexivity.
Qed.

Lemma process_block_content_plain_witness :
  MarkdownFlowUnifiedParser.process_block_content
    (mkBlock (py "Hello {{ x }}, {{y}}!") CONTENT 0) (Some x_is_v) =
    Ok (py "Hello v, UNKNOWN!").
Proof.
  rewrite (process_block_content_plain
             (mkBlock (py "Hello {{ x }}, {{y}}!") CONTENT 0)
             (Some x_is_v));
    [vm_compute; reflexivity | reflexivity | reflexivity].
Defined.

(** ** Variable names *)

Section SortFacts.

Lemma nat_of_ascii_inj (a b : ascii) :
  nat_of_ascii a = nat_of_ascii b -> a = b.
Proof.
  intros H. rewrite <- (ascii_nat_embedding a), <- (ascii_nat_embedding b).
  rewrite H. reflexivity.
Qed.

Lemma str_ltb_total (x y : str) :
  str_ltb y x = false -> x <> y -> str_ltb x y = true.
Proof.
  revert y. induction x as [|a x IH]; intros [|b y] H Hne;
    cbn [str_ltb] in *; try congruence.
  apply orb_false_elim in H. destruct H as [H1 H2].
  apply Nat.ltb_ge in H1.
  destruct (nat_of_ascii a <? nat_of_ascii b) eqn:E; [reflexivity|].
  apply Nat.ltb_ge in E.
  assert (Hab : nat_of_ascii a = nat_of_ascii b) by lia.
  rewrite Hab, Nat.eqb_refl in *. cbn [andb orb] in *.
  apply nat_of_ascii_inj in Hab. subst b.
  apply IH; [exact H2 | congruence].
Qed.

Lemma insert_sorted_In (x y : str) (l : list str) :
  In y (insert_sorted x l) <-> y = x \/ In y l.
Proof.
  induction l as [|z l IH]; cbn [insert_sorted In]; [intuition|].
  destruct (str_ltb z x); cbn [In]; rewrite ?IH; intuition.
Qed.

Lemma sorted_In (y : str) (l : list str) : In y (sorted l) <-> In y l.
Proof.
  induction l as [|x l IH]; cbn [sorted fold_right In]; [tauto|].
  fold (sorted l). rewrite insert_sorted_In, IH. intuition.
Qed.

Lemma insert_sorted_ascending (x : str) (l : list str) :
  ascending l = true -> ~ In x l -> ascending (insert_sorted x l) = true.
Proof.
  induction l as [|y l IH]; intros Hl Hin; [reflexivity|].
  cbn [insert_sorted].
  destruct (str_ltb y x) eqn:E.
  - assert (Hl' : ascending l = true).
    { destruct l; [reflexivity|]. cbn [ascending] in Hl.
      apply andb_prop in Hl. tauto. }
    assert (Hin' : ~ In x l) by (intros H; apply Hin; right; exact H).
    specialize (IH Hl' Hin').
    destruct l as [|z l]; cbn [insert_sorted] in *.
    + cbn [ascending]. rewrite E. reflexivity.
    + cbn [ascending] in Hl. apply andb_prop in Hl. destruct Hl as [Hyz _].
      destruct (str_ltb z x); cbn [ascending]; cbn [ascending] in IH.
      * rewrite Hyz. exact IH.
      * rewrite E. exact IH.
  - cbn [ascending]. cbn [ascending] in Hl. rewrite Hl.
    rewrite str_ltb_total; [reflexivity | exact E |].
    intros ->. apply Hin. left. reflexivity.
Qed.

Lemma sorted_ascending (l : list str) :
  List.NoDup l -> ascending (sorted l) = true.
Proof.
  induction l as [|x l IH]; intros H; [reflexivity|].
  inversion H as [|? ? Hx Hl]; subst.
  cbn [sorted fold_right]. fold (sorted l).
  apply insert_sorted_ascending; [apply IH, Hl|].
  rewrite sorted_In. exact Hx.
Qed.

Lemma set_add_trimmed (x : str) (s : list str) :
  strip x = x -> trimmed_set s -> trimmed_set (set_add x s).
Proof.
  intros Hx [Hn Hf]. unfold set_add.
  destruct (existsb (str_eqb x) s) eqn:E; [split; assumption|].
  split.
  - apply List.NoDup_app; [exact Hn | repeat constructor; tauto |].
    intros y Hy [Hxy|[]]. subst y.
    assert (Hex : existsb (str_eqb x) s = true).
    { apply existsb_exists. exists x. split; [exact Hy|].
      apply str_eqb_eq. reflexivity. }
    congruence.
  - apply List.Forall_app. split; [exact Hf | repeat constructor; exact Hx].
Qed.

Lemma set_update_trimmed (xs s : list str) :
  Forall (fun v => strip v = v) xs -> trimmed_set s ->
  trimmed_set (set_update xs s).
Proof.
  unfold set_update. revert s.
  induction xs as [|x xs IH]; intros s Hxs Hs; [exact Hs|].
  inversion Hxs; subst. cbn [fold_left].
  apply IH; [assumption|]. apply set_add_trimmed; assumption.
Qed.

Lemma sorted_trimmed (s : list str) :
  trimmed_set s ->
  ascending (sorted s) = true /\ Forall (fun v => strip v = v) (sorted s).
Proof.
  intros [Hn Hf]. split; [apply sorted_ascending, Hn|].
  apply List.Forall_forall. intros v Hv.
  rewrite List.Forall_forall in Hf. apply Hf, sorted_In, Hv.
Qed.

End SortFacts.

Section VariableFacts.

Lemma nil_trimmed_set : trimmed_set [].
Proof. split; constructor. Qed.

Lemma map_strip_trimmed (l : list str) :
  Forall (fun v => strip v = v) (map strip l).
Proof.
  apply List.Forall_forall. intros v Hv. apply in_map_iff in Hv.
  destruct Hv as (x & <- & _). apply strip_idem.
Qed.

Lemma _extract_variables_set (text : str)
    (escape_info : option EscapeInfo) :
  exists s, trimmed_set s /\ _extract_variables text escape_info = sorted s.
Proof.
  unfold _extract_variables. eexists. split; [|reflexivity].
  generalize (finditer brace_pattern text).
  assert (H0 : trimmed_set
                 (set_update (map strip (findall percent_pattern text)) []))
    by (apply set_update_trimmed;
        [apply map_strip_trimmed | apply nil_trimmed_set]).
  revert H0.
  generalize (set_update (map strip (findall percent_pattern text)) []).
  intros s Hs ms. revert s Hs.
  induction ms as [|m ms IH]; intros s Hs; [exact Hs|].
  cbn [fold_left]. apply IH.
  destruct escape_info as [info|].
  - destruct (negb (EscapeType_eqb (escape_type info) FULL)); [|exact Hs].
    apply set_add_trimmed; [apply strip_idem | exact Hs].
  - apply set_add_trimmed; [apply strip_idem | exact Hs].
Qed.

Lemma _extract_variables_trimmed (text : str)
    (escape_info : option EscapeInfo) :
  Forall (fun v => strip v = v) (_extract_variables text escape_info).
Proof.
  destruct (_extract_variables_set text escape_info) as (s & Hs & ->).
  apply sorted_trimmed, Hs.
Qed.

Lemma _extract_preserved_content_total (content : str) :
  exists body, _extract_preserved_content content = Ok body.
Proof.
  unfold _extract_preserved_content, Py.split.
  destruct (split_from_cons [newline] None 0 [] content) as (x & l & ->).
  destruct (getitem_last_cons x l) as (y & Hy).
  unfold str in *. cbn [getitem nth_error bind].
  repeat first
    [ progress cbn [bind]
    | rewrite Hy
    | match goal with
      | |- context [if ?b then _ else _] => destruct b
      | |- context [match ?o with Some _ => _ | None => _ end] =>
          destruct o
      end ];
    eauto.
Qed.

Lemma _parse_interaction_content_variable (content : str)
    (r : Interaction) (v : str) :
  _parse_interaction_content content = Ok r ->
  variable_of r = Some v -> strip v = v.
Proof.
  unfold _parse_interaction_content.
  destruct (rmatch_start link_pattern (strip content));
    [intros H; injection H as <-; discriminate|].
  destruct (rmatch_start assignment_pattern (strip content)) as [m|].
  - set (name := strip (group (strip content) m 1)).
    assert (Hn : strip name = name) by apply strip_idem.
    set (remaining := strip (group (strip content) m 2)).
    destruct (contains remaining (py "...")).
    + destruct (getitem (split_max remaining (py "...") 1) 0) as [p0|];
        cbn [bind]; [|discriminate].
      destruct (if 1 <? length (split_max remaining (py "...") 1)
                then let! p1 := getitem (split_max remaining (py "...") 1) 1
                     in Ok (strip p1)
                else Ok []) as [q|]; cbn [bind]; [|discriminate].
      destruct (contains (strip p0) (py "|") && negb (str_eqb (strip p0) [])).
      * rewrite _parse_buttons_spec. cbn [bind].
        intros H; injection H as <-. cbn. congruence.
      * intros H; injection H as <-. cbn. congruence.
    + destruct (contains remaining (py "|") || negb (str_eqb remaining [])).
      * destruct (match remaining with
                  | [] => Ok []
                  | _ :: _ => _parse_buttons remaining
                  end) as [bs|]; cbn [bind]; [|discriminate].
        intros H; injection H as <-. cbn. congruence.
      * intros H; injection H as <-. cbn. congruence.
  - destruct (match content with
              | [] => Ok [mkButton [] []]
              | _ :: _ => _parse_buttons content
              end) as [bs|]; cbn [bind]; [|discriminate].
    intros H; injection H as <-. discriminate.
Qed.

Lemma gather_spec (all_variables : list str) (block : Block) :
  trimmed_set all_variables ->
  exists s, MarkdownFlowUnifiedParser.gather all_variables block = Ok s /\ trimmed_set s.
Proof.
  intros Hs. unfold MarkdownFlowUnifiedParser.gather.
  destruct (block_type block).
  - eexists. split; [reflexivity|].
    apply set_update_trimmed; [apply _extract_variables_trimmed | exact Hs].
  - unfold parse_preserved_content_block.
    destruct (_extract_preserved_content_total (content block)) as (b & ->).
    cbn [bind preserved_variables]. eexists. split; [reflexivity|].
    apply set_update_trimmed; [apply _extract_variables_trimmed | exact Hs].
  - unfold parse_interaction_block.
    match goal with
    | |- context [_parse_interaction_content ?c] =>
        destruct (_parse_interaction_content_total c) as (r & Hr);
        rewrite Hr
    end.
    cbn [bind interaction].
    assert (Hv : trimmed_set
                   match variable_of r with
                   | Some v => set_add v all_variables
                   | None => all_variables
                   end).
    { destruct (variable_of r) as [v|] eqn:E; [|exact Hs].
      apply set_add_trimmed; [|exact Hs].
      eapply _parse_interaction_content_variable; eassumption. }
    destruct (question_of r); eexists; (split; [reflexivity|]);
      [|exact Hv].
    apply set_update_trimmed; [apply _extract_variables_trimmed | exact Hv].
Qed.

Lemma gather_all_spec (blocks : list Block) (all_variables : list str) :
  trimmed_set all_variables ->
  exists s, for_each blocks all_variables MarkdownFlowUnifiedParser.gather = Ok s /\ trimmed_set s.
Proof.
  revert all_variables.
  induction blocks as [|b blocks IH]; intros s Hs; cbn [for_each].
  - eauto.
  - destruct (gather_spec s b Hs) as (s' & -> & Hs'). cbn [bind].
    apply IH, Hs'.
Qed.

Lemma block_parse_document_total (document : str) :
  exists blocks, MarkdownFlowBlockParser.parse_document document = Ok blocks.
Proof.
  unfold MarkdownFlowBlockParser.parse_document.
  match goal with
  | |- context [for_each ?l [] collect_block] =>
      destruct (collect_blocks_spec l []) as (bs & -> & _)
  end.
  cbn [bind]. eauto.
Qed.

End VariableFacts.

(** X6: the names [_extract_variables] returns are in strictly ascending
    order, so none comes twice, and every one is trimmed. *)
Theorem extract_variables_sorted_trimmed (text : str)
    (escape_info : option EscapeInfo) :
  ascending (_extract_variables text escape_info) = true /\
  Forall (fun v => strip v = v) (_extract_variables text escape_info).
Proof.
  destruct (_extract_variables_set text escape_info) as (s & Hs & ->).
  apply sorted_trimmed, Hs.
Qed.

(** X7: when the escape is full, [_extract_variables] returns the names
    of the [%{{...}}] forms only; the other references of the text give
    no name. *)
Theorem extract_variables_full_escape (text : str) (info : EscapeInfo) :
  escape_type info = FULL ->
  _extract_variables text (Some info) =
    sorted (set_update (map strip (findall percent_pattern text)) []).
Proof.
  intros H. unfold _extract_variables. rewrite H. cbn [EscapeType_eqb negb].
  f_equal. generalize (finditer brace_pattern text).
  generalize (set_update (map strip (findall percent_pattern text)) []).
  intros s ms. revert s. induction ms as [|m ms IH]; intros s;
    [reflexivity | apply IH].
Qed.

Lemma extract_variables_full_escape_witness :
  _extract_variables (py "{{a}} %{{ b }} {{c}}")
    (Some (mkEscapeInfo FULL (py "\{{a}} %{{ b }} {{c}}")
             (py "{{a}} %{{ b }} {{c}}") [])) =
    [py "b"].
Proof.
  rewrite (extract_variables_full_escape (py "{{a}} %{{ b }} {{c}}")
             (mkEscapeInfo FULL (py "\{{a}} %{{ b }} {{c}}")
                (py "{{a}} %{{ b }} {{c}}") []));
    [vm_compute; reflexivity | reflexivity].
Defined.

(** X8: the unified [parse_document] never raises; its blocks are those
    of the block parser, and its names are in strictly ascending order
    and trimmed. *)
Theorem unified_parse_document_total (document : str) :
  exists blocks names,
    MarkdownFlowUnifiedParser.parse_document document = Ok (blocks, names) /\
    MarkdownFlowBlockParser.parse_document document = Ok blocks /\
    ascending names = true /\
    Forall (fun v => strip v = v) names.
Proof.
  unfold MarkdownFlowUnifiedParser.parse_document.
  destruct (block_parse_document_total document) as (blocks & ->).
  cbn [bind].
  destruct (gather_all_spec blocks [] nil_trimmed_set) as (s & -> & Hs).
  cbn [bind]. exists blocks, (sorted s).
  split; [reflexivity|]. split; [reflexivity|].
  apply sorted_trimmed, Hs.
Qed.

Section CoverFacts.

Lemma set_add_In (x y : str) (s : list str) :
  In x (set_add y s) <-> x = y \/ In x s.
Proof.
  unfold set_add. destruct (existsb (str_eqb y) s) eqn:E.
  - split; [auto|]. intros [->|H]; [|exact H].
    apply existsb_exists in E. destruct E as (z & Hz & Hyz).
    apply str_eqb_eq in Hyz. subst z. exact Hz.
  - rewrite in_app_iff. cbn [In]. intuition.
Qed.

Lemma set_update_In (x : str) (xs s : list str) :
  In x (set_update xs s) <-> In x xs \/ In x s.
Proof.
  unfold set_update. revert s.
  induction xs as [|y xs IH]; intros s; cbn [fold_left In]; [tauto|].
  rewrite IH, set_add_In. intuition.
Qed.

Lemma covered_incl (s s' : list str) (b : Block) :
  incl s s' -> covered s b -> covered s' b.
Proof.
  intros Hi. unfold covered. destruct (block_type b).
  - intros H x Hx. apply Hi, H, Hx.
  - intros H r Hr x Hx. apply Hi, (H r Hr), Hx.
  - intros H r Hr. destruct (H r Hr) as [Hv Hq]. split.
    + intros v E. apply Hi, Hv, E.
    + intros q E x Hx. apply Hi, (Hq q E), Hx.
Qed.

Lemma gather_covers (s s' : list str) (b : Block) :
  MarkdownFlowUnifiedParser.gather s b = Ok s' ->
  incl s s' /\ covered s' b.
Proof.
  unfold MarkdownFlowUnifiedParser.gather, covered.
  destruct (block_type b).
  - intros H. injection H as <-. split.
    + intros x Hx. apply set_update_In. right. exact Hx.
    + intros x Hx. apply set_update_In. left. exact Hx.
  - destruct (parse_preserved_content_block (content b)) as [r|];
      cbn [bind]; [|discriminate].
    intros H. injection H as <-. split.
    + intros x Hx. apply set_update_In. right. exact Hx.
    + intros r' Hr'. injection Hr' as <-.
      intros x Hx. apply set_update_In. left. exact Hx.
  - destruct (parse_interaction_block (content b)) as [r|];
      cbn [bind]; [|discriminate].
    set (s1 := match variable_of (interaction r) with
               | Some v => set_add v s
               | None => s
               end).
    assert (H1 : incl s s1).
    { unfold s1. destruct (variable_of (interaction r)); intros x Hx;
        [apply set_add_In; right|]; exact Hx. }
    assert (Hv : forall v, variable_of (interaction r) = Some v -> In v s1).
    { unfold s1. intros v ->. apply set_add_In. left. reflexivity. }
    destruct (question_of (interaction r)) as [q|] eqn:Eq;
      intros H; injection H as <-.
    + split.
      * intros x Hx. apply set_update_In. right. apply H1, Hx.
      * intros r' Hr'. injection Hr' as <-. split.
        -- intros v Ev. apply set_update_In. right. apply Hv, Ev.
        -- intros q' Eq'. rewrite Eq in Eq'. injection Eq' as <-.
           intros x Hx. apply set_update_In. left. exact Hx.
    + split; [exact H1|].
      intros r' Hr'. injection Hr' as <-. split; [exact Hv|].
      intros q' Eq'. rewrite Eq in Eq'. discriminate.
Qed.

Lemma gather_all_covers (blocks : list Block) :
  forall s r,
    for_each blocks s MarkdownFlowUnifiedParser.gather = Ok r ->
    incl s r /\ Forall (covered r) blocks.
Proof.
  induction blocks as [|b blocks IH]; intros s r H; cbn [for_each] in H.
  - injection H as <-. split; [apply incl_refl | constructor].
  - destruct (MarkdownFlowUnifiedParser.gather s b) as [s1|] eqn:E;
      cbn [bind] in H; [|discriminate].
    apply gather_covers in E. destruct E as [H1 Hc].
    apply IH in H. destruct H as [H2 Hall]. split.
    + intros x Hx. apply H2, H1, Hx.
    + constructor; [|exact Hall]. eapply covered_incl; eassumption.
Qed.

End CoverFacts.

(** X9: the names the unified [parse_document] returns contain the
    variables of every content and preserved block, and the variable and
    the question variables of every interaction block. *)
Theorem aggregate_covers_blocks (document : str) (blocks : list Block)
    (names : list str) :
  MarkdownFlowUnifiedParser.parse_document document = Ok (blocks, names) ->
  Forall (covered names) blocks.
Proof.
  unfold MarkdownFlowUnifiedParser.parse_document.
  destruct (MarkdownFlowBlockParser.parse_document document) as [bs|];
    cbn [bind]; [|discriminate].
  destruct (for_each bs [] MarkdownFlowUnifiedParser.gather) as [s|] eqn:E;
    cbn [bind]; [|discriminate].
  intros H. injection H as <- <-.
  apply gather_all_covers in E. destruct E as [_ Hall].
  eapply List.Forall_impl; [|exact Hall].
  intros b. apply covered_incl. intros x Hx.
  apply sorted_In, Hx.
Qed.

Lemma aggregate_covers_blocks_witness :
  Forall (covered [py "choice"; py "name"])
    [mkBlock (py "Hello {{name}}") CONTENT 0;
     mkBlock (py "?[%{{choice}}Yes|No]") INTERACTION 1].
Proof.
  apply (aggregate_covers_blocks scenario). vm_compute. reflexivity.
Defined.

(** ** Blocks *)

Section StableFacts.

Lemma _parse_single_block_stable (c : str) (i0 : nat) (b : Block) :
  _parse_single_block c i0 = Ok (Some b) -> stable b.
Proof.
  unfold _parse_single_block. intros H i.
  destruct (strip c) as [|a s] eqn:E; [discriminate|].
  assert (Hs : strip (a :: s) = a :: s) by (rewrite <- E; apply strip_idem).
  destruct (_is_interaction_block (a :: s)) eqn:Ei.
  - injection H as <-. cbn [content]. unfold _parse_single_block.
    rewrite Hs, Ei. reflexivity.
  - destruct (_is_preserved_content_block (a :: s)) as [p|] eqn:Ep;
      cbn [bind] in H; [|discriminate].
    destruct p; injection H as <-; cbn [content];
      unfold _parse_single_block; rewrite Hs, Ei, Ep; reflexivity.
Qed.

Lemma collect_block_stable (blocks blocks' : list Block)
    (entry : nat * str) :
  Forall stable blocks ->
  collect_block blocks entry = Ok blocks' -> Forall stable blocks'.
Proof.
  intros Hb. destruct entry as [i raw]. unfold collect_block.
  destruct (strip raw) as [|a s]; [congruence|].
  destruct (_parse_single_block (a :: s) i) as [[b|]|] eqn:E;
    cbn [bind]; try congruence.
  intros H. injection H as <-. apply List.Forall_app. split; [exact Hb|].
  repeat constructor. eapply _parse_single_block_stable, E.
Qed.

Lemma for_each_invariant {S A : Type} (P : S -> Prop)
    (body : S -> A -> res S) (l : list A) :
  (forall s x s', P s -> body s x = Ok s' -> P s') ->
  forall s r, P s -> for_each l s body = Ok r -> P r.
Proof.
  intros Hbody. induction l as [|x l IH]; intros s r Hs H;
    cbn [for_each] in H.
  - injection H as <-. exact Hs.
  - destruct (body s x) as [s'|] eqn:E; cbn [bind] in H; [|discriminate].
    eapply IH; [|exact H]. eapply Hbody; eassumption.
Qed.

Lemma reindex_stable (blocks : list Block) :
  Forall stable blocks ->
  Forall (fun b => _parse_single_block (content b) (index b) = Ok (Some b))
    (map (fun '(i, block) => set_index block i) (enumerate blocks)).
Proof.
  intros H. unfold enumerate. generalize 0.
  induction H as [|b blocks Hb _ IH]; intros n; cbn; constructor.
  - cbn [content index set_index]. apply (Hb n).
  - apply IH.
Qed.

End StableFacts.

(** X10: every block [parse_document] returns has a trimmed content, and
    parsing this content again at the index of the block gives the block
    back: its type is the classification of its own text. *)
Theorem blocks_parse_again (document : str) (blocks : list Block) :
  MarkdownFlowBlockParser.parse_document document = Ok blocks ->
  Forall (fun b => strip (content b) = content b /\
                   _parse_single_block (content b) (index b) = Ok (Some b))
    blocks.
Proof.
  unfold MarkdownFlowBlockParser.parse_document.
  match goal with
  | |- context [for_each ?l [] collect_block] =>
      destruct (for_each l [] collect_block) as [bs|] eqn:E
  end; cbn [bind]; [|discriminate].
  intros H. injection H as <-.
  assert (Hs : Forall stable bs).
  { eapply (for_each_invariant (Forall stable)); [|constructor|exact E].
    intros s x s' Hs Hx. eapply collect_block_stable; eassumption. }
  apply reindex_stable in Hs.
  apply List.Forall_forall. intros b Hb.
  rewrite List.Forall_forall in Hs. specialize (Hs b Hb).
  split; [|exact Hs].
  unfold _parse_single_block in Hs.
  destruct (strip (content b)) as [|a s] eqn:Es; [discriminate|].
  destruct (_is_interaction_block (a :: s)).
  - injection Hs as Hs. rewrite <- Hs; reflexivity.
  - destruct (_is_preserved_content_block (a :: s)) as [p|];
      cbn [bind] in Hs; [|discriminate].
    destruct p; injection Hs as Hs; rewrite <- Hs; reflexivity.
Qed.

Lemma blocks_parse_again_witness :
  Forall (fun b => strip (content b) = content b /\
                   _parse_single_block (content b) (index b) = Ok (Some b))
    [mkBlock (py "Hello {{name}}") CONTENT 0;
     mkBlock (py "?[%{{choice}}Yes|No]") INTERACTION 1].
Proof.
  apply (blocks_parse_again scenario). vm_compute. reflexivity.
Defined.

Section SingleBlockFacts.

Lemma split_no_separator (text : str) :
  ~ In newline text -> Re.split block_separator_pattern text = [text].
Proof.
  intros H. unfold Re.split.
  change block_separator_pattern with
    (Chr newline :: ([Star Space] ++ lit "---" ++ [Star Space; Chr newline])).
  rewrite finditer_first_absent by exact H. reflexivity.
Qed.

End SingleBlockFacts.

(** X11: a document without backslash and without line feed gives no
    block when it is blank and otherwise exactly one block, at index 0,
    with the trimmed document for content. *)
Theorem one_line_document (document : str) :
  contains document [backslash] = false ->
  contains document [newline] = false ->
  exists blocks,
    MarkdownFlowBlockParser.parse_document document = Ok blocks /\
    map content blocks = (if blank document then [] else [strip document]) /\
    map index blocks = (if blank document then [] else [0]).
Proof.
  intros Hb Hn. apply contains_char in Hb. apply contains_char in Hn.
  unfold MarkdownFlowBlockParser.parse_document.
  rewrite (process_document_escapes_plain _ Hb). cbn [processed_text].
  rewrite (split_no_separator _ Hn).
  cbn [enumerate length seq combine for_each].
  destruct (collect_block_spec [] 0 document) as (bs & -> & Hc).
  cbn [bind app]. eexists. split; [reflexivity|].
  destruct (blank document).
  - destruct bs; [|discriminate]. split; reflexivity.
  - destruct bs as [|b [|b' bs]]; try discriminate.
    cbn in Hc |- *. injection Hc as ->. split; reflexivity.
Qed.

Lemma one_line_document_witness :
  exists blocks,
    MarkdownFlowBlockParser.parse_document (py "  Hello {{name}}  ") =
      Ok blocks /\
    map content blocks = [py "Hello {{name}}"] /\
    map index blocks = [0].
Proof.
  apply (one_line_document (py "  Hello {{name}}  ")); reflexivity.
Defined.

(** ** Matching forwards *)

Section ForwardFacts.

(** The steps of the matcher, one item at a time. *)
Lemma match_here_bol (r : pattern) prev opens gs s :
  match_here (Bol :: r) 0 prev opens gs s = match_here r 0 prev opens gs s.
Proof. reflexivity. Qed.

Lemma match_here_chr (c : ascii) (r : pattern) pos prev opens gs s :
  match_here (Chr c :: r) pos prev opens gs (c :: s) =
  match_here r (S pos) (Some c) opens gs s.
Proof. cbn [match_here]. rewrite chr_eqb_refl. reflexivity. Qed.

Lemma match_here_plus (k : cls) (r : pattern) pos prev opens gs a s :
  in_cls k a = true ->
  match_here (Plus k :: r) pos prev opens gs (a :: s) =
  star_then k (match_here r) (S pos) (Some a) opens gs s.
Proof. intros H. cbn [match_here]. rewrite H. reflexivity. Qed.

Lemma match_here_star (k : cls) (r : pattern) :
  match_here (Star k :: r) = star_then k (match_here r).
Proof. reflexivity. Qed.

Lemma match_here_gopen (r : pattern) pos prev opens gs s :
  match_here (GOpen :: r) pos prev opens gs s =
  match_here r pos prev (pos :: opens) gs s.
Proof. reflexivity. Qed.

Lemma match_here_gclose (r : pattern) pos prev o opens gs s :
  match_here (GClose :: r) pos prev (o :: opens) gs s =
  match_here r pos prev opens (gs ++ [(o, pos)]) s.
Proof. reflexivity. Qed.

Lemma match_here_eol (pos : nat) prev opens gs :
  match_here [Eol] pos prev opens gs [] = Some (pos, gs).
Proof. reflexivity. Qed.

(** [k*] takes nothing where the next character is not of the class. *)
Lemma star_then_stop (k : cls) (cont : matcher) (s : str) :
  match s with [] => true | a :: _ => negb (in_cls k a) end = true ->
  forall pos prev opens gs,
    star_then k cont pos prev opens gs s = cont pos prev opens gs s.
Proof.
  intros H pos prev opens gs. destruct s as [|a s]; [reflexivity|].
  cbn [star_then]. apply negb_true_iff in H. rewrite H. reflexivity.
Qed.

(** [k*] takes a whole run of the class when the rest matches after it. *)
Lemma star_then_run (k : cls) (cont : matcher) (run rest : str)
    (opens : list nat) (gs : list (nat * nat)) (r : nat * list (nat * nat)) :
  forallb (in_cls k) run = true ->
  forall pos prev,
    (forall prev',
       star_then k cont (pos + length run) prev' opens gs rest = Some r) ->
    star_then k cont pos prev opens gs (run ++ rest) = Some r.
Proof.
  induction run as [|a run IH]; intros Hall pos prev H.
  - cbn [app length] in *. rewrite Nat.add_0_r in H. apply H.
  - cbn [forallb] in Hall. apply andb_prop in Hall. destruct Hall as [Ha Hr].
    cbn [app star_then]. rewrite Ha.
    rewrite (IH Hr (S pos) (Some a)); [reflexivity|].
    intros prev'. cbn [length] in H.
    replace (S pos + length run) with (pos + S (length run)) by lia.
    apply H.
Qed.

(** [k*] followed by a literal character fails on a text without it. *)
Lemma star_then_chr_absent (k : cls) (c : ascii) (r : pattern) (s : str) :
  ~ In c s ->
  forall pos prev opens gs,
    star_then k (match_here (Chr c :: r)) pos prev opens gs s = None.
Proof.
  induction s as [|a s IH]; intros Hin pos prev opens gs;
    cbn [star_then match_here]; [reflexivity|].
  assert (Ha : chr_eqb a c = false).
  { apply chr_eqb_neq. intros ->. apply Hin. left. reflexivity. }
  rewrite Ha, IH by (intros H; apply Hin; right; exact H).
  destruct (in_cls k a); reflexivity.
Qed.

Lemma forallb_except (c : ascii) (s : str) :
  ~ In c s -> forallb (in_cls (Except c)) s = true.
Proof.
  induction s as [|a s IH]; intros H; [reflexivity|].
  cbn [forallb in_cls]. rewrite IH by (intros E; apply H; right; exact E).
  assert (Ha : chr_eqb a c = false).
  { apply chr_eqb_neq. intros ->. apply H. left. reflexivity. }
  rewrite Ha. reflexivity.
Qed.

Lemma forallb_dot (s : str) :
  ~ In newline s -> forallb (in_cls Dot) s = true.
Proof.
  induction s as [|a s IH]; intros H; [reflexivity|].
  cbn [forallb in_cls]. rewrite IH by (intros E; apply H; right; exact E).
  assert (Ha : chr_eqb a newline = false).
  { apply chr_eqb_neq. intros ->. apply H. left. reflexivity. }
  rewrite Ha. reflexivity.
Qed.

Lemma In_lstrip (c : ascii) (s : str) : In c (lstrip s) -> In c s.
Proof.
  induction s as [|a s IH]; cbn [lstrip]; [tauto|].
  destruct (isspace a); [right; auto | auto].
Qed.

Lemma In_strip (c : ascii) (s : str) : In c (strip s) -> In c s.
Proof.
  unfold strip, rstrip. intros H. apply in_rev, In_lstrip in H.
  apply in_rev in H. apply In_lstrip, H.
Qed.

Lemma link_pattern_absent (s : str) :
  ~ In "]"%char s -> rmatch_start link_pattern s = None.
Proof.
  intros H. unfold rmatch_start, match_at, link_pattern.
  cbn [lit py list_ascii_of_string map app]. rewrite match_here_bol.
  destruct s as [|a s]; [reflexivity|].
  destruct (in_cls (Except "]") a) eqn:Ea.
  - rewrite match_here_plus by exact Ea.
    rewrite star_then_chr_absent; [reflexivity|].
    intros E. apply H. right. exact E.
  - cbn [match_here]. rewrite Ea. reflexivity.
Qed.

Lemma assignment_pattern_absent (s : str) :
  ~ In "%"%char s -> rmatch_start assignment_pattern s = None.
Proof.
  intros H. unfold rmatch_start, match_at, assignment_pattern.
  cbn [lit py list_ascii_of_string map app match_here Nat.eqb].
  destruct s as [|a s]; [reflexivity|].
  assert (Ha : chr_eqb a "%" = false).
  { apply chr_eqb_neq. intros ->. apply H. left. reflexivity. }
  rewrite Ha. reflexivity.
Qed.

End ForwardFacts.

Section GrammarFacts.

Lemma link_pattern_match (a b : str) :
  0 < length a -> ~ In "]"%char a ->
  0 < length b -> ~ In ")"%char b ->
  exists m, rmatch_start link_pattern (a ++ py "](" ++ b ++ py ")") = Some m.
Proof.
  intros Ha Hna Hb Hnb.
  destruct a as [|a0 a]; [cbn in Ha; lia|].
  destruct b as [|b0 b]; [cbn in Hb; lia|].
  assert (Ha0 : in_cls (Except "]") a0 = true).
  { cbn [in_cls]. apply negb_true_iff, chr_eqb_neq.
    intros ->. apply Hna. left. reflexivity. }
  assert (Hb0 : in_cls (Except ")") b0 = true).
  { cbn [in_cls]. apply negb_true_iff, chr_eqb_neq.
    intros ->. apply Hnb. left. reflexivity. }
  unfold rmatch_start, match_at.
  assert (H : exists r,
            match_here link_pattern 0 None [] []
              ((a0 :: a) ++ py "](" ++ (b0 :: b) ++ py ")") = Some r);
    [|destruct H as ([e gs] & ->); eexists; reflexivity].
  unfold link_pattern.
  cbn [lit py list_ascii_of_string map app].
  rewrite match_here_bol, match_here_plus by exact Ha0.
  erewrite star_then_run;
    [eexists; reflexivity
    | apply forallb_except; intros E; apply Hna; right; exact E
    | ].
  intros prev'. rewrite star_then_stop by reflexivity.
  rewrite !match_here_chr, match_here_plus by exact Hb0.
  erewrite star_then_run;
    [reflexivity
    | apply forallb_except; intros E; apply Hnb; right; exact E
    | ].
  intros prev''. rewrite star_then_stop by reflexivity.
  rewrite match_here_chr. apply match_here_eol.
Qed.

Lemma assignment_pattern_match (name rem : str) :
  0 < length name -> ~ In "}"%char name -> ~ In newline rem ->
  rmatch_start assignment_pattern (py "%{{" ++ name ++ py "}}" ++ rem) =
    Some (RMatch 0 (5 + length name + length rem)
            [(3, 3 + length name);
             (5 + length name, 5 + length name + length rem)]).
Proof.
  intros Hn Hnn Hr.
  destruct name as [|n0 name]; [cbn in Hn; lia|].
  assert (Hn0 : in_cls (Except "}") n0 = true).
  { cbn [in_cls]. apply negb_true_iff, chr_eqb_neq.
    intros ->. apply Hnn. left. reflexivity. }
  unfold rmatch_start, match_at.
  assert (H : match_here assignment_pattern 0 None [] []
                (py "%{{" ++ (n0 :: name) ++ py "}}" ++ rem) =
              Some (5 + length (n0 :: name) + length rem,
                    [(3, 3 + length (n0 :: name));
                     (5 + length (n0 :: name),
                      5 + length (n0 :: name) + length rem)]));
    [|rewrite H; reflexivity].
  unfold assignment_pattern, name_group.
  cbn [lit py list_ascii_of_string map app].
  rewrite match_here_bol, !match_here_chr, match_here_gopen.
  rewrite match_here_plus by exact Hn0.
  erewrite star_then_run;
    [reflexivity
    | apply forallb_except; intros E; apply Hnn; right; exact E
    | ].
  intros prev'. rewrite star_then_stop by reflexivity.
  rewrite match_here_gclose, !match_here_chr, match_here_gopen.
  rewrite match_here_star.
  rewrite <- (app_nil_r rem) at 1.
  erewrite star_then_run; [reflexivity | apply forallb_dot, Hr | ].
  intros prev''. rewrite star_then_stop by reflexivity.
  rewrite match_here_gclose. rewrite match_here_eol.
  cbn [length app]. repeat f_equal; lia.
Qed.

End GrammarFacts.

Section BindingFacts.

Lemma slice_middle {A : Type} (a b c : list A) :
  slice (a ++ b ++ c) (length a) (length a + length b) = b.
Proof.
  unfold slice. rewrite skipn_app, Nat.sub_diag, skipn_all, skipn_O.
  cbn [app]. replace (length a + length b - length a) with (length b)
    by lia.
  rewrite firstn_app, firstn_all, Nat.sub_diag. cbn [firstn].
  apply app_nil_r.
Qed.

Lemma contains_nonempty (s p : str) :
  0 < length p -> contains s p = true -> str_eqb s [] = false.
Proof.
  intros Hp H. destruct s as [|c s]; [|reflexivity].
  destruct p; [cbn in Hp; lia | discriminate].
Qed.

Lemma cut_split_max (sep s : str) :
  0 < length sep ->
  split_max s sep 1 =
  match cut sep s with
  | Some (a, b) => [a; b]
  | None => [s]
  end.
Proof.
  intros H. unfold split_max.
  rewrite split_from_once by (intros ->; cbn in H; lia).
  destruct (cut sep s) as [[a b]|]; reflexivity.
Qed.

Lemma binding_grammar_spec (var_name remaining : str) :
  (if contains remaining (py "...") then
     let parts := split_max remaining (py "...") 1 in
     let! p0 := getitem parts 0 in
     let buttons_part := strip p0 in
     let! question :=
       if 1 <? length parts
       then (let! p1 := getitem parts 1 in Ok (strip p1))
       else Ok [] in
     if contains buttons_part (py "|")
        && negb (str_eqb buttons_part [])
     then
       let! buttons := _parse_buttons buttons_part in
       Ok (ButtonsWithText var_name buttons question)
     else Ok (TextOnly var_name question)
   else
     if contains remaining (py "|") || negb (str_eqb remaining [])
     then
       let! buttons :=
         match remaining with
         | [] => Ok []
         | _ => _parse_buttons remaining
         end in
       Ok (ButtonsOnly var_name buttons)
     else Ok (TextOnly var_name [])) =
  Ok (binding_grammar var_name remaining).
Proof.
  unfold binding_grammar. rewrite contains_cut.
  rewrite cut_split_max by (cbn; lia).
  destruct (cut (py "...") remaining) as [[a b]|].
  - cbn [getitem nth_error bind length Nat.ltb Nat.leb].
    destruct (contains (strip a) (py "|")) eqn:E.
    + rewrite (contains_nonempty (strip a) (py "|")) by (cbn; lia || exact E).
      cbn [andb negb]. rewrite _parse_buttons_spec. reflexivity.
    + reflexivity.
  - destruct remaining as [|c r].
    + reflexivity.
    + cbn [str_eqb negb]. rewrite orb_true_r, _parse_buttons_spec.
      reflexivity.
Qed.

End BindingFacts.

(** ** Preserved content *)

Section FencedFacts.

Lemma getitem_last_snoc {A : Type} (l : list A) (x : A) :
  getitem_last (l ++ [x]) = Ok x.
Proof. unfold getitem_last. rewrite rev_app_distr. reflexivity. Qed.

Lemma fenced_shape (body : str) :
  exists x l,
    Py.split body [newline] = x :: l /\
    Py.split (fenced body) [newline] = py "===" :: (x :: l) ++ [py "==="].
Proof.
  destruct (split_from_cons [newline] None 0 [] body) as (x & l & E).
  exists x, l. split; [exact E|]. rewrite fenced_lines.
  unfold Py.split at 1. rewrite E. reflexivity.
Qed.

Lemma fenced_facts (body : str) :
  exists lines,
    Py.split (fenced body) [newline] = lines /\
    (length lines =? 1) = false /\
    (3 <=? length lines) = true /\
    getitem lines 0 = Ok (py "===") /\
    getitem_last lines = Ok (py "===") /\
    join [newline] (slice lines 1 (length lines - 1)) = body.
Proof.
  destruct (fenced_shape body) as (x & l & Hb & ->). eexists.
  split; [reflexivity|].
  change (py "===" :: (x :: l) ++ [py "==="])
    with ((py "===" :: x :: l) ++ [py "==="]).
  rewrite (getitem_last_snoc (py "===" :: x :: l) (py "===")).
  rewrite length_app. cbn [length app].
  split; [apply Nat.eqb_neq; lia|]. split; [apply Nat.leb_le; lia|].
  split; [reflexivity|]. split; [reflexivity|].
  unfold slice. cbn [skipn].
  replace (S (S (length l)) + 1 - 1 - 1) with (length (x :: l))
    by (cbn [length]; lia).
  change (x :: l ++ [py "==="]) with ((x :: l) ++ [py "==="]).
  rewrite firstn_app, firstn_all, Nat.sub_diag. cbn [firstn].
  rewrite app_nil_r, <- Hb. apply (join_split_char newline body []).
Qed.

Lemma fenced_is_preserved (body : str) :
  _is_preserved_content_block (fenced body) = Ok true.
Proof.
  unfold _is_preserved_content_block.
  destruct (fenced_facts body) as (lines & -> & H1 & H3 & H0 & Hl & _).
  unfold str in *. rewrite H1. cbn [bind]. rewrite H3, H0. cbn [bind].
  rewrite Hl. reflexivity.
Qed.

Lemma fenced_extract (body : str) :
  _extract_preserved_content (fenced body) = Ok body.
Proof.
  unfold _extract_preserved_content.
  destruct (fenced_facts body) as (lines & -> & H1 & H3 & H0 & Hl & Hj).
  unfold str in *. rewrite H1. cbn [bind]. rewrite H3, H0. cbn [bind].
  change (str_eqb (strip (py "===")) (py "===")) with true. cbv iota.
  rewrite Hl. cbn [bind].
  change (str_eqb (strip (py "===")) (py "===")) with true. cbv iota.
  rewrite Hj. reflexivity.
Qed.

Lemma fenced_trimmed (body : str) : strip (fenced body) = fenced body.
Proof.
  unfold fenced. cbn [py list_ascii_of_string app].
  change ("="%char :: "="%char :: "="%char :: newline
            :: body ++ newline :: ["="%char; "="%char; "="%char])
    with ("="%char
            :: ("="%char :: "="%char :: newline
                  :: body ++ newline :: ["="%char; "="%char; "="%char])).
  replace ("="%char :: "="%char :: newline
             :: body ++ newline :: ["="%char; "="%char; "="%char])
    with (("="%char :: "="%char :: newline
             :: body ++ newline :: ["="%char; "="%char]) ++ ["="%char]).
  - apply strip_fixed; reflexivity.
  - cbn [app]. rewrite <- app_assoc. reflexivity.
Qed.

End FencedFacts.

(** X12: whatever the body, the three-part text [===], body, [===] is
    classified as preserved content, its extracted content is the body,
    character for character, and processing the block is processing the
    body as a content block. *)
Theorem preserved_block_round_trip (body : str) (i : nat)
    (variables : option vardict) :
  _parse_single_block (fenced body) i =
    Ok (Some (mkBlock (fenced body) PRESERVED_CONTENT i)) /\
  _extract_preserved_content (fenced body) = Ok body /\
  MarkdownFlowUnifiedParser.process_block_content
    (mkBlock (fenced body) PRESERVED_CONTENT i) variables =
  MarkdownFlowUnifiedParser.process_block_content
    (mkBlock body CONTENT i) variables.
Proof.
  split; [|split].
  - unfold _parse_single_block. rewrite fenced_trimmed.
    assert (Hi : _is_interaction_block (fenced body) = false).
    { unfold _is_interaction_block. rewrite fenced_trimmed. reflexivity. }
    rewrite Hi, fenced_is_preserved. reflexivity.
  - apply fenced_extract.
  - unfold MarkdownFlowUnifiedParser.process_block_content.
    cbn [block_type content]. unfold parse_preserved_content_block.
    rewrite fenced_extract. reflexivity.
Qed.

Section BacktrackFacts.

(** Where the continuation needs at least [n] characters, [k*] gives
    back what it took until [n] are left. *)
Lemma star_then_short (k : cls) (cont : matcher) (n : nat)
    (opens : list nat) (gs : list (nat * nat)) :
  (forall t pos prev, length t < n -> cont pos prev opens gs t = None) ->
  forall t pos prev,
    length t < n -> star_then k cont pos prev opens gs t = None.
Proof.
  intros Hfail t. induction t as [|a t IH]; intros pos prev Hlen;
    cbn [star_then].
  - apply Hfail, Hlen.
  - cbn [length] in Hlen. rewrite IH by lia.
    rewrite Hfail by exact Hlen. destruct (in_cls k a); reflexivity.
Qed.

Lemma star_then_exact (k : cls) (cont : matcher) (tail : str)
    (opens : list nat) (gs : list (nat * nat)) :
  (forall t pos prev,
     length t < length tail -> cont pos prev opens gs t = None) ->
  forall pos prev,
    star_then k cont pos prev opens gs tail = cont pos prev opens gs tail.
Proof.
  intros Hfail pos prev. destruct tail as [|a t]; [reflexivity|].
  cbn [star_then].
  rewrite (star_then_short k cont (length (a :: t)) opens gs Hfail)
    by (cbn [length]; lia).
  destruct (in_cls k a); reflexivity.
Qed.

Lemma closing_fence_short (t : str) (pos : nat) (prev : option ascii)
    (o : nat) :
  length t < 3 ->
  match_here ([GClose] ++ lit "===" ++ [Eol]) pos prev [o] [] t = None.
Proof.
  intros H. cbn [lit py list_ascii_of_string map app match_here].
  destruct t as [|x [|y [|z t]]]; [| | |cbn [length] in H; lia];
    repeat first [ reflexivity
                 | match goal with
                   | |- context [chr_eqb ?a ?b] => destruct (chr_eqb a b)
                   end ].
Qed.

Lemma inline_preserved_pattern_match (body : str) :
  0 < length body -> ~ In newline body ->
  rmatch_start inline_preserved_pattern (inline_fenced body) =
    Some (RMatch 0 (6 + length body) [(3, 3 + length body)]).
Proof.
  intros Hn Hb. destruct body as [|b0 body]; [cbn in Hn; lia|].
  assert (Hb0 : in_cls Dot b0 = true).
  { cbn [in_cls]. apply negb_true_iff, chr_eqb_neq.
    intros ->. apply Hb. left. reflexivity. }
  unfold rmatch_start, match_at.
  assert (H : match_here inline_preserved_pattern 0 None [] []
                (inline_fenced (b0 :: body)) =
              Some (6 + length (b0 :: body), [(3, 3 + length (b0 :: body))]));
    [|rewrite H; reflexivity].
  unfold inline_preserved_pattern, inline_fenced.
  change ([GOpen; Plus Dot; GClose] ++ lit "===" ++ [Eol])
    with (GOpen :: Plus Dot :: ([GClose] ++ lit "===" ++ [Eol])).
  cbn [lit py list_ascii_of_string map app].
  rewrite match_here_bol, !match_here_chr, match_here_gopen.
  rewrite match_here_plus by exact Hb0.
  erewrite star_then_run;
    [reflexivity
    | apply forallb_dot; intros E; apply Hb; right; exact E
    | ].
  intros prev'.
  rewrite (star_then_exact Dot _ ["="%char; "="%char; "="%char]);
    [|intros t p q Ht; apply (closing_fence_short t p q 3), Ht].
  cbn [app]. rewrite match_here_gclose, !match_here_chr, match_here_eol.
  cbn [length app]. repeat f_equal; lia.
Qed.

End BacktrackFacts.

Section InlineFencedFacts.

Lemma inline_fenced_trimmed (body : str) :
  strip (inline_fenced body) = inline_fenced body.
Proof.
  unfold inline_fenced. cbn [py list_ascii_of_string app].
  replace ("="%char :: "="%char :: body ++ ["="%char; "="%char; "="%char])
    with (("="%char :: "="%char :: body ++ ["="%char; "="%char])
            ++ ["="%char]).
  - apply strip_fixed; reflexivity.
  - cbn [app]. rewrite <- app_assoc. reflexivity.
Qed.

Lemma inline_fenced_lines (body : str) :
  ~ In newline body ->
  Py.split (inline_fenced body) [newline] = [inline_fenced body].
Proof.
  intros H. unfold Py.split. rewrite split_char_absent; [reflexivity|].
  unfold inline_fenced. intros E.
  apply in_app_or in E. destruct E as [E|E].
  - cbn in E. intuition discriminate.
  - apply in_app_or in E. destruct E as [E|E]; [exact (H E)|].
    cbn in E. intuition discriminate.
Qed.

Lemma inline_fenced_group (body : str) :
  group (inline_fenced body)
    (RMatch 0 (6 + length body) [(3, 3 + length body)]) 1 = body.
Proof.
  unfold group. cbn [m_groups Nat.sub nth_error].
  apply (slice_middle (py "===") body (py "===")).
Qed.

Lemma inline_fenced_is_preserved (body : str) :
  0 < length body -> ~ In newline body ->
  _is_preserved_content_block (inline_fenced body) =
    Ok (negb (contains body (py "="))).
Proof.
  intros Hn Hb. unfold _is_preserved_content_block.
  rewrite (inline_fenced_lines body Hb).
  cbn [length Nat.eqb getitem nth_error bind].
  rewrite inline_fenced_trimmed.
  rewrite (inline_preserved_pattern_match body Hn Hb).
  rewrite inline_fenced_group. cbn [bind Nat.leb].
  destruct (negb (contains body (py "="))); reflexivity.
Qed.

Lemma inline_fenced_extract (body : str) :
  0 < length body -> ~ In newline body ->
  _extract_preserved_content (inline_fenced body) = Ok (strip body).
Proof.
  intros Hn Hb. unfold _extract_preserved_content.
  rewrite (inline_fenced_lines body Hb).
  cbn [length Nat.eqb getitem nth_error bind].
  rewrite inline_fenced_trimmed.
  rewrite (inline_preserved_pattern_match body Hn Hb).
  rewrite inline_fenced_group. reflexivity.
Qed.

End InlineFencedFacts.

(** X13: for a non-empty body on one line, the extracted content of
    [===body===] is the trimmed body and processing the block is
    processing the trimmed body as a content block; the text is
    classified as preserved content exactly when the body has no [=],
    and as ordinary content otherwise. *)
Theorem inline_preserved_block (body : str) (i : nat)
    (variables : option vardict) :
  0 < length body ->
  contains body [newline] = false ->
  _extract_preserved_content (inline_fenced body) = Ok (strip body) /\
  MarkdownFlowUnifiedParser.process_block_content
    (mkBlock (inline_fenced body) PRESERVED_CONTENT i) variables =
  MarkdownFlowUnifiedParser.process_block_content
    (mkBlock (strip body) CONTENT i) variables /\
  _parse_single_block (inline_fenced body) i =
    Ok (Some (mkBlock (inline_fenced body)
                (if contains body (py "=") then CONTENT
                 else PRESERVED_CONTENT) i)).
Proof.
  intros Hn Hb. apply contains_char in Hb.
  pose proof (inline_fenced_extract body Hn Hb) as He.
  split; [exact He|]. split.
  - unfold MarkdownFlowUnifiedParser.process_block_content.
    cbn [block_type content]. unfold parse_preserved_content_block.
    rewrite He. reflexivity.
  - unfold _parse_single_block. rewrite inline_fenced_trimmed.
    assert (Hi : _is_interaction_block (inline_fenced body) = false).
    { unfold _is_interaction_block. rewrite inline_fenced_trimmed.
      reflexivity. }
    rewrite Hi, (inline_fenced_is_preserved body Hn Hb).
    cbn [bind]. destruct (contains body (py "=")); reflexivity.
Qed.

Lemma inline_preserved_block_witness :
  _extract_preserved_content (inline_fenced (py " keep {{x}} ")) =
    Ok (py "keep {{x}}") /\
  MarkdownFlowUnifiedParser.process_block_content
    (mkBlock (inline_fenced (py " keep {{x}} ")) PRESERVED_CONTENT 0)
    (Some x_is_v) =
  MarkdownFlowUnifiedParser.process_block_content
    (mkBlock (py "keep {{x}}") CONTENT 0) (Some x_is_v) /\
  _parse_single_block (inline_fenced (py " keep {{x}} ")) 0 =
    Ok (Some (mkBlock (inline_fenced (py " keep {{x}} "))
                PRESERVED_CONTENT 0)).
Proof.
  apply (inline_preserved_block (py " keep {{x}} ") 0 (Some x_is_v));
    [cbn; lia | reflexivity].
Defined.

(** ** The interaction grammar *)

(** X14: content without closing bracket and without percent sign is a
    list of display buttons: the buttons of the content, or the one
    empty button when the content is empty. *)
Theorem plain_buttons (content : str) :
  contains content (py "]") = false ->
  contains content (py "%") = false ->
  _parse_interaction_content content =
    Ok (NonAssignmentButton
          match content with
          | [] => [mkButton [] []]
          | _ => parse_buttons_spec content
          end).
Proof.
  intros Hb Hp. apply (contains_char "]") in Hb.
  apply (contains_char "%") in Hp.
  unfold _parse_interaction_content.
  rewrite link_pattern_absent
    by (intros E; apply Hb, In_strip, E).
  rewrite assignment_pattern_absent
    by (intros E; apply Hp, In_strip, E).
  destruct content; [reflexivity|].
  rewrite _parse_buttons_spec. reflexivity.
Qed.

Lemma plain_buttons_witness :
  _parse_interaction_content (py "Continue|Stop//0") =
    Ok (NonAssignmentButton
          [mkButton (py "Continue") (py "Continue");
           mkButton (py "Stop") (py "0")]).
Proof.
  rewrite (plain_buttons (py "Continue|Stop//0"));
    [vm_compute; reflexivity | reflexivity | reflexivity].
Defined.

(** X15: content whose trimmed text is a non-empty text without []],
    then [](], a non-empty target without [)], then [)], is rejected with
    the error of the Markdown link. *)
Theorem markdown_link_rejected (content a b : str) :
  strip content = a ++ py "](" ++ b ++ py ")" ->
  0 < length a -> contains a (py "]") = false ->
  0 < length b -> contains b (py ")") = false ->
  _parse_interaction_content content =
    Ok (InteractionError
          (py "Markdown link format not supported as interaction")).
Proof.
  intros Hc Ha Hna Hb Hnb.
  apply (contains_char "]") in Hna. apply (contains_char ")") in Hnb.
  unfold _parse_interaction_content. rewrite Hc.
  destruct (link_pattern_match a b Ha Hna Hb Hnb) as (m & ->).
  reflexivity.
Qed.

Lemma markdown_link_rejected_witness :
  _parse_interaction_content (py " see](http://x) ") =
    Ok (InteractionError
          (py "Markdown link format not supported as interaction")).
Proof.
  apply (markdown_link_rejected (py " see](http://x) ")
           (py "see") (py "http://x"));
    [reflexivity | cbn; lia | reflexivity | cbn; lia | reflexivity].
Defined.

(** X16: content whose trimmed text is [%{{name}}] followed by a
    remainder on one line, with no []] anywhere, is parsed by the binding
    grammar on the trimmed name and the trimmed remainder: buttons with
    text or text only around the first [...], buttons only without it,
    text only when nothing remains. *)
Theorem variable_binding_grammar (content name rem : str) :
  strip content = py "%{{" ++ name ++ py "}}" ++ rem ->
  0 < length name ->
  contains name (py "}") = false ->
  contains rem [newline] = false ->
  contains (strip content) (py "]") = false ->
  _parse_interaction_content content =
    Ok (binding_grammar (strip name) (strip rem)).
Proof.
  intros Hc Hn Hnn Hr Hb.
  apply (contains_char "}") in Hnn. apply contains_char in Hr.
  apply (contains_char "]") in Hb.
  unfold _parse_interaction_content.
  rewrite (link_pattern_absent _ Hb). rewrite Hc.
  rewrite (assignment_pattern_match name rem Hn Hnn Hr).
  assert (H1 : group (py "%{{" ++ name ++ py "}}" ++ rem)
                 (RMatch 0 (5 + length name + length rem)
                    [(3, 3 + length name);
                     (5 + length name, 5 + length name + length rem)]) 1
               = name).
  { unfold group. cbn [m_groups Nat.sub nth_error].
    apply (slice_middle (py "%{{") name (py "}}" ++ rem)). }
  assert (H2 : group (py "%{{" ++ name ++ py "}}" ++ rem)
                 (RMatch 0 (5 + length name + length rem)
                    [(3, 3 + length name);
                     (5 + length name, 5 + length name + length rem)]) 2
               = rem).
  { unfold group. cbn [m_groups Nat.sub nth_error].
    pose proof (slice_middle (py "%{{" ++ name ++ py "}}") rem []) as S.
    rewrite app_nil_r, !length_app in S. cbn [py list_ascii_of_string length]
      in S.
    rewrite <- !app_assoc in S.
    replace (5 + length name) with (3 + (length name + 2)) by lia.
    exact S. }
  rewrite H1, H2. apply binding_grammar_spec.
Qed.

Lemma variable_binding_grammar_witness :
  _parse_interaction_content (py " %{{ color }} Red | Blue ... Other? ") =
    Ok (ButtonsWithText (py "color")
          [mkButton (py "Red") (py "Red"); mkButton (py "Blue") (py "Blue")]
          (py "Other?")).
Proof.
  apply (variable_binding_grammar (py " %{{ color }} Red | Blue ... Other? ")
           (py " color ") (py " Red | Blue ... Other?"));
    [reflexivity | cbn; lia | reflexivity | reflexivity | reflexivity].
Defined.

Section MultiLineFacts.

Lemma star_then_run_none (k : cls) (c : ascii) (r : pattern) (run rest : str)
    (o : nat) (opens : list nat) (gs : list (nat * nat)) :
  forallb (in_cls k) run = true ->
  ~ In c run ->
  (forall pos prev,
     star_then k (match_here (GClose :: Chr c :: r)) pos prev
       (o :: opens) gs rest = None) ->
  forall pos prev,
    star_then k (match_here (GClose :: Chr c :: r)) pos prev
      (o :: opens) gs (run ++ rest) = None.
Proof.
  induction run as [|a run IH]; intros Hall Hc Hrest pos prev;
    [apply Hrest|].
  cbn [forallb] in Hall. apply andb_prop in Hall. destruct Hall as [Ha Hr].
  assert (Hac : chr_eqb a c = false).
  { apply chr_eqb_neq. intros ->. apply Hc. left. reflexivity. }
  cbn [app star_then]. rewrite Ha.
  rewrite IH; [|exact Hr|intros E; apply Hc; right; exact E|exact Hrest].
  rewrite match_here_gclose. cbn [match_here]. rewrite Hac. reflexivity.
Qed.

(** [.*] then [$] fails on a text with a line feed that is not its last
    character. *)
Lemma star_dot_eol_none (u w : str) (b : ascii) (o : nat)
    (opens : list nat) (gs : list (nat * nat)) :
  ~ In newline u ->
  forall pos prev,
    star_then Dot (match_here [GClose; Eol]) pos prev (o :: opens) gs
      (u ++ newline :: b :: w) = None.
Proof.
  induction u as [|a u IH]; intros Hu pos prev.
  - cbn [app star_then in_cls]. rewrite chr_eqb_refl. cbn [negb].
    rewrite match_here_gclose. reflexivity.
  - cbn [app star_then].
    rewrite IH by (intros E; apply Hu; right; exact E).
    rewrite match_here_gclose. cbn [match_here].
    destruct (u ++ newline :: b :: w) as [|x [|y t]] eqn:E.
    + destruct u; discriminate.
    + destruct u as [|? [|? ?]]; discriminate.
    + cbn [at_eol]. destruct (in_cls Dot a); reflexivity.
Qed.

Lemma first_newline (s : str) :
  In newline s -> exists u w, s = u ++ newline :: w /\ ~ In newline u.
Proof.
  induction s as [|a s IH]; intros H; [destruct H|].
  destruct (chr_eqb a newline) eqn:E.
  - apply chr_eqb_eq in E. subst a. exists [], s. auto.
  - apply chr_eqb_neq in E. destruct H as [H|H]; [congruence|].
    destruct (IH H) as (u & w & -> & Hu).
    exists (a :: u), w. split; [reflexivity|].
    intros [F|F]; [congruence | exact (Hu F)].
Qed.

Lemma lstrip_first (s t : str) (c : ascii) :
  lstrip s = c :: t -> isspace c = false.
Proof.
  induction s as [|a s IH]; cbn [lstrip]; [discriminate|].
  destruct (isspace a) eqn:E; [exact IH|].
  intros H. injection H as <- _. exact E.
Qed.

Lemma strip_last (s x : str) (c : ascii) :
  strip s = x ++ [c] -> isspace c = false.
Proof.
  unfold strip, rstrip. intros H.
  apply (f_equal (@rev ascii)) in H.
  rewrite rev_involutive, rev_app_distr in H. cbn [rev app] in H.
  eapply lstrip_first, H.
Qed.

Lemma contains_char_true (c : ascii) (s : str) :
  contains s [c] = true -> In c s.
Proof.
  induction s as [|a s IH]; cbn [contains startswith]; [discriminate|].
  rewrite startswith_nil, andb_true_r. intros H.
  apply orb_prop in H. destruct H as [H|H].
  - apply chr_eqb_eq in H. left. congruence.
  - right. apply IH, H.
Qed.

Lemma assignment_pattern_multiline (name u w : str) (b : ascii) :
  0 < length name -> ~ In "}"%char name -> ~ In newline u ->
  rmatch_start assignment_pattern
    (py "%{{" ++ name ++ py "}}" ++ u ++ newline :: b :: w) = None.
Proof.
  intros Hn Hnn Hu.
  destruct name as [|n0 name]; [cbn in Hn; lia|].
  assert (Hn0 : in_cls (Except "}") n0 = true).
  { cbn [in_cls]. apply negb_true_iff, chr_eqb_neq.
    intros ->. apply Hnn. left. reflexivity. }
  unfold rmatch_start, match_at.
  assert (H : match_here assignment_pattern 0 None [] []
                (py "%{{" ++ (n0 :: name) ++ py "}}"
                   ++ u ++ newline :: b :: w) = None);
    [|rewrite H; reflexivity].
  unfold assignment_pattern, name_group.
  cbn [lit py list_ascii_of_string map app].
  rewrite match_here_bol, !match_here_chr, match_here_gopen.
  rewrite match_here_plus by exact Hn0.
  apply star_then_run_none.
  - apply forallb_except. intros E. apply Hnn. right. exact E.
  - intros E. apply Hnn. right. exact E.
  - intros pos prev. rewrite star_then_stop by reflexivity.
    rewrite match_here_gclose, !match_here_chr, match_here_gopen.
    rewrite match_here_star. apply star_dot_eol_none, Hu.
Qed.

End MultiLineFacts.

(** X17: when the remainder after [%{{name}}] contains a line feed, the
    binding is not recognised: the whole content, binding included, is
    parsed as display buttons. *)
Theorem binding_across_lines (content name rem : str) :
  strip content = py "%{{" ++ name ++ py "}}" ++ rem ->
  0 < length name ->
  contains name (py "}") = false ->
  contains rem [newline] = true ->
  contains (strip content) (py "]") = false ->
  _parse_interaction_content content =
    Ok (NonAssignmentButton (parse_buttons_spec content)).
Proof.
  intros Hc Hn Hnn Hr Hb.
  apply (contains_char "}") in Hnn. apply contains_char_true in Hr.
  apply (contains_char "]") in Hb.
  destruct (first_newline rem Hr) as (u & w & -> & Hu).
  destruct w as [|b w].
  { exfalso.
    assert (Hs : isspace newline = false); [|discriminate].
    apply (strip_last content (py "%{{" ++ name ++ py "}}" ++ u)).
    rewrite Hc, <- !app_assoc. reflexivity. }
  unfold _parse_interaction_content.
  rewrite (link_pattern_absent _ Hb). rewrite Hc.
  rewrite (assignment_pattern_multiline name u w b Hn Hnn Hu).
  destruct content as [|c0 content]; [discriminate|].
  rewrite _parse_buttons_spec. reflexivity.
Qed.

Lemma binding_across_lines_witness :
  _parse_interaction_content
    (py "%{{c}}Yes|" ++ [newline] ++ py "No") =
    Ok (NonAssignmentButton
          [mkButton (py "%{{c}}Yes") (py "%{{c}}Yes");
           mkButton (py "No") (py "No")]).
Proof.
  apply (binding_across_lines (py "%{{c}}Yes|" ++ [newline] ++ py "No")
           (py "c") (py "Yes|" ++ [newline] ++ py "No"));
    [reflexivity | cbn; lia | reflexivity | reflexivity | reflexivity].
Defined.

Section LabelFacts.

Lemma join_cons (sep x y : str) (l : list str) :
  join sep (x :: y :: l) = x ++ sep ++ join sep (y :: l).
Proof. reflexivity. Qed.

Lemma split_join_char (c : ascii) (labels : list str) :
  labels <> [] ->
  Forall (fun l => ~ In c l) labels ->
  Py.split (join [c] labels) [c] = labels.
Proof.
  intros Hne Hall. unfold Py.split. revert Hne.
  induction Hall as [|l labels Hl Hall IH]; intros Hne;
    [exfalso; apply Hne; reflexivity|].
  destruct labels as [|l2 labels].
  - cbn [join]. rewrite split_char_absent by exact Hl. reflexivity.
  - rewrite join_cons. cbn [app]. rewrite split_char_app.
    rewrite split_char_absent by exact Hl. unfold str in *.
    rewrite IH by discriminate. reflexivity.
Qed.

Lemma simple_label_button (l : str) :
  simple_label l = true ->
  ~ In "|"%char l /\
  match strip l with
  | [] => []
  | t => [button_of t]
  end = [mkButton l l].
Proof.
  unfold simple_label. intros H.
  apply andb_prop in H. destruct H as [H H4].
  apply andb_prop in H. destruct H as [H H3].
  apply andb_prop in H. destruct H as [H1 H2].
  apply str_eqb_eq in H1. apply negb_true_iff in H2, H3, H4.
  split; [apply (contains_char "|"), H3|].
  rewrite H1. destruct l as [|c l]; [discriminate|].
  unfold button_of. rewrite contains_cut in H4.
  destruct (cut (py "//") (c :: l)); [discriminate | reflexivity].
Qed.

End LabelFacts.

(** X18: labels that are trimmed, not empty and free of [|] and [//],
    joined with [|], parse back to one button per label, in order, each
    with the label for display and value. *)
Theorem buttons_of_labels (labels : list str) :
  forallb simple_label labels = true ->
  _parse_buttons (join (py "|") labels) =
    Ok (map (fun l => mkButton l l) labels).
Proof.
  intros H. rewrite _parse_buttons_spec. f_equal.
  destruct labels as [|l0 labels]; [reflexivity|].
  unfold parse_buttons_spec.
  change (py "|") with ["|"%char].
  rewrite split_join_char.
  - induction (l0 :: labels) as [|l ls IH]; [reflexivity|].
    cbn [forallb] in H. apply andb_prop in H. destruct H as [Hl Hls].
    cbn [flat_map map].
    destruct (simple_label_button l Hl) as [_ ->].
    rewrite IH by exact Hls. reflexivity.
  - discriminate.
  - apply List.Forall_forall. intros l Hl.
    rewrite forallb_forall in H.
    apply (simple_label_button l (H l Hl)).
Qed.

Lemma buttons_of_labels_witness :
  _parse_buttons (join (py "|") [py "Yes"; py "No"; py "Ask me later"]) =
    Ok (map (fun l => mkButton l l) [py "Yes"; py "No"; py "Ask me later"]).
Proof.
  apply (buttons_of_labels [py "Yes"; py "No"; py "Ask me later"]).
  reflexivity.
Defined.
